(** * Veraciudad: the directory content dumper ([code/main.py])

    A shallow embedding of the three functions of [code/main.py]
    ([read_file_content], [list_files_recursive], [main]) together with the
    part of the Python runtime they call ([open], [os.walk], [os.path.join],
    [os.path.exists], [file.write], [print]), and the properties of the
    report they produce. *)

From Stdlib Require Import String Ascii List Bool Lia DecimalString.
Import ListNotations.

Local Open Scope list_scope.
Local Open Scope string_scope.

(** ** Text *)

Module Text.

(** The character written by ["\n"]. *)
Definition LF : ascii := "010"%char.
Definition nl : string := String LF EmptyString.

(** Python's [s * n] on strings. *)
Fixpoint str_mul (s : string) (n : nat) : string :=
  match n with
  | O => ""
  | S k => s ++ str_mul s k
  end.

(** Concatenation of a list of pieces, in order. *)
Fixpoint cat (pieces : list string) : string :=
  match pieces with
  | [] => ""
  | p :: rest => p ++ cat rest
  end.

(** The lines of a text.  A line is closed by [LF]; a last piece that is not
    closed counts as a line when it is not empty. *)
Fixpoint lines (s : string) : list string :=
  match s with
  | EmptyString => []
  | String c rest =>
      if Ascii.eqb c LF then "" :: lines rest
      else match lines rest with
           | [] => [String c ""]
           | l :: ls => String c l :: ls
           end
  end.

(** [has_char c s]: the character [c] occurs in [s]. *)
Fixpoint has_char (c : ascii) (s : string) : bool :=
  match s with
  | EmptyString => false
  | String d rest => Ascii.eqb d c || has_char c rest
  end.

End Text.
Import Text.

(** ** Python strings

    A [string] stands for a text, through its UTF-8 bytes.  A Python [str]
    can hold more: the name of a directory entry whose bytes are not UTF-8
    comes out of [os.walk] with a lone surrogate in the place of every byte
    that could not be decoded.  Such a [str] names the file well enough to
    open it, and cannot be encoded to a UTF-8 stream. *)

Module PyStr.

Inductive pychar : Type :=
| Chr (c : ascii)   (* a byte of the UTF-8 form of the text *)
| Sur (b : ascii).  (* the lone surrogate U+DC00 + b of an undecodable byte b *)

Definition pystr : Type := list pychar.

(** A text as a Python [str]. *)
Fixpoint text (s : string) : pystr :=
  match s with
  | EmptyString => []
  | String c rest => Chr c :: text rest
  end.

(** The bytes of a [str], each surrogate giving back its byte
    ([os.fsencode]).  When the [str] holds no surrogate these are the bytes
    the strict UTF-8 encoder gives. *)
Fixpoint fsencode (s : pystr) : string :=
  match s with
  | [] => EmptyString
  | Chr c :: rest => String c (fsencode rest)
  | Sur b :: rest => String b (fsencode rest)
  end.

Definition is_surrogate (c : pychar) : bool :=
  match c with
  | Sur _ => true
  | Chr _ => false
  end.

Definition has_surrogate (s : pystr) : bool := existsb is_surrogate s.

Definition is_sep (c : pychar) : bool :=
  match c with
  | Chr c => Ascii.eqb c "/"
  | Sur _ => false
  end.

(** Python's [s.startswith("/")] and [s.endswith("/")]. *)
Definition startswith_sep (s : pystr) : bool :=
  match s with
  | c :: _ => is_sep c
  | [] => false
  end.

Fixpoint endswith_sep (s : pystr) : bool :=
  match s with
  | [] => false
  | [c] => is_sep c
  | _ :: rest => endswith_sep rest
  end.

Definition is_empty (s : pystr) : bool :=
  match s with
  | [] => true
  | _ :: _ => false
  end.

Definition pychar_dec (a b : pychar) : {a = b} + {a <> b}.
Proof. decide equality; apply ascii_dec. Defined.

Definition pystr_dec (a b : pystr) : {a = b} + {a <> b} := list_eq_dec pychar_dec a b.

Definition pystr_eqb (a b : pystr) : bool := if pystr_dec a b then true else false.

End PyStr.
Import PyStr.

Coercion text : string >-> pystr.

(** ** Exceptions and the state of a run *)

(** A Python exception of class [Exception] (what [open], [read], the
    decoder and the encoder raise, and what [except Exception] catches), as
    far as the program looks at it: [str(e)]. *)
Inductive exn : Type := Exn (msg : string).

Definition str (e : exn) : string := match e with Exn m => m end.

Inductive outcome (A : Type) : Type :=
| Return (a : A)
| Raise (e : exn).
Arguments Return {A} a.
Arguments Raise {A} e.

(** What a run changes: the text of the output file, the console, and
    (as a record of the effects, not read by the program) the paths handed
    to [open(..., 'r')], in call order. *)
Record state : Type := mkState {
  out : string;
  stdout : string;
  opened : list pystr
}.

(** A statement: it runs from a state, ends in a state, and either returns
    a value or raises.  What was written before a raise stays written. *)
Definition M (A : Type) : Type := state -> outcome A * state.

Definition ret {A} (a : A) : M A := fun st => (Return a, st).

Definition bind {A B} (c : M A) (k : A -> M B) : M B :=
  fun st =>
    match c st with
    | (Return a, st') => k a st'
    | (Raise e, st') => (Raise e, st')
    end.

Definition raise {A} (e : exn) : M A := fun st => (Raise e, st).

(** [try: c / except Exception as e: h e]. *)
Definition try_except {A} (c : M A) (h : exn -> M A) : M A :=
  fun st =>
    match c st with
    | (Return a, st') => (Return a, st')
    | (Raise e, st') => h e st'
    end.

Declare Scope py_scope.
Delimit Scope py_scope with py.
Notation "x <- c ;; k" := (bind c (fun x => k))
  (at level 61, c at next level, right associativity) : py_scope.
Notation "c ;; k" := (bind c (fun _ => k))
  (at level 61, right associativity) : py_scope.
Local Open Scope py_scope.

(** [for x in xs: body x]. *)
Fixpoint for_ {A} (xs : list A) (body : A -> M unit) : M unit :=
  match xs with
  | [] => ret tt
  | x :: rest => body x ;; for_ rest body
  end.

(** [for x in g: body x] over a generator [g]: the generator hands out its
    values one by one and may raise when asked for the next; the loop then
    ends with that exception, and what the list holds after it is never
    produced. *)
Fixpoint for_gen {A} (g : list (A + exn)) (body : A -> M unit) : M unit :=
  match g with
  | [] => ret tt
  | inl x :: rest => body x ;; for_gen rest body
  | inr e :: _ => raise e
  end.

(** The values of a generator, in order. *)
Fixpoint yields {A} (g : list (A + exn)) : list A :=
  match g with
  | [] => []
  | inl x :: rest => x :: yields rest
  | inr _ :: rest => yields rest
  end.

(** The message of the [UnicodeEncodeError] of the strict UTF-8 encoder on
    a [str] that holds a surrogate: the position is counted in characters,
    and a run of surrogates is reported as a range. *)
Definition is_continuation (c : ascii) : bool :=
  Nat.leb 128 (nat_of_ascii c) && Nat.ltb (nat_of_ascii c) 192.

Fixpoint first_surrogate (s : pystr) (pos : nat) : option (nat * ascii * pystr) :=
  match s with
  | [] => None
  | Chr c :: rest => first_surrogate rest (if is_continuation c then pos else S pos)
  | Sur b :: rest => Some (pos, b, rest)
  end.

Fixpoint surrogate_run (s : pystr) : nat :=
  match s with
  | Sur _ :: rest => S (surrogate_run rest)
  | _ => 0
  end.

Definition decimal (n : nat) : string := NilEmpty.string_of_uint (Nat.to_uint n).

Definition hex_digit (n : nat) : string :=
  String.substring n 1 "0123456789abcdef".

Definition hex_byte (b : ascii) : string :=
  hex_digit (Nat.div (nat_of_ascii b) 16) ++ hex_digit (Nat.modulo (nat_of_ascii b) 16).

Definition unicode_encode_error (s : pystr) : exn :=
  match first_surrogate s 0 with
  | None => Exn "surrogates not allowed"
  | Some (pos, b, rest) =>
      match surrogate_run rest with
      | O =>
          Exn ("'utf-8' codec can't encode character '\udc" ++ hex_byte b ++
               "' in position " ++ decimal pos ++ ": surrogates not allowed")
      | S k =>
          Exn ("'utf-8' codec can't encode characters in position " ++
               decimal pos ++ "-" ++ decimal (pos + S k) ++
               ": surrogates not allowed")
      end
  end.

(** [output_file.write(s)] on the stream opened with [encoding='utf-8']:
    the stream is append-only; a [str] with a surrogate is refused whole,
    with [UnicodeEncodeError], and nothing of it is written. *)
Definition write (s : pystr) : M unit :=
  fun st =>
    if has_surrogate s then (Raise (unicode_encode_error s), st)
    else (Return tt, mkState (out st ++ fsencode s) (stdout st) (opened st)).

(** [print(s)], of a text. *)
Definition print (s : string) : M unit :=
  fun st => (Return tt, mkState (out st) (stdout st ++ s ++ nl) (opened st)).

(** ** The filesystem the run sees *)

(** An entry of a directory listing, as [os.walk] classifies it:
    [File] is an entry whose [is_dir()] is false (a regular file, a special
    file, a dangling link); [Dir symlink listing] is one whose [is_dir()] is
    true, [symlink] tells whether [os.path.islink] holds of it, and
    [listing] is what [os.scandir] gives on it, [None] when it raises
    [OSError]; [Deep e] is a directory, not a symbolic link, that [os.walk]
    cannot enter without raising [e], an exception it does not swallow
    (up to Python 3.11 [os.walk] recurses, and entering a directory nested
    deeper than the recursion limit allows raises [RecursionError]; from
    3.12 on it iterates and no directory is of this kind). *)
#[local] Unset Elimination Schemes.
Inductive node : Type :=
| File : node
| Dir (symlink : bool) (listing : option (list (pystr * node)))
| Deep (e : exn).
#[local] Set Elimination Schemes.

Definition is_dir (n : node) : bool :=
  match n with
  | File => false
  | Dir _ _ => true
  | Deep _ => true
  end.

(** The filesystem is read, not changed, by a run: the output file is taken
    to lie outside the scanned roots. *)
Record filesystem : Type := mkFs {
  (** what is at a path given to [os.path.exists] and [os.walk], links
      followed; [None]: nothing there *)
  lookup : pystr -> option node;
  (** [open(p, 'r', encoding='utf-8')] followed by [.read()]: the decoded
      text, or the exception raised on the way; the read is taken to end *)
  open_read : pystr -> outcome string;
  (** [open(p, 'w', encoding='utf-8')]: [None] when the file is created or
      truncated, [Some e] when that raises *)
  open_write : string -> option exn
}.

(** ** The Python library functions used *)

(** [posixpath.join(a, b)]. *)
Definition os_path_join (a b : pystr) : pystr :=
  if startswith_sep b then b
  else if is_empty a || endswith_sep a then (a ++ b)%list
  else (a ++ text "/" ++ b)%list.

Definition os_path_exists (fs : filesystem) (p : pystr) : bool :=
  match lookup fs p with
  | Some _ => true
  | None => false
  end.

(** The two lists [os.walk] builds from one listing, in listing order. *)
Definition dirs_of (es : list (pystr * node)) : list pystr :=
  map fst (filter (fun e => is_dir (snd e)) es).

Definition nondirs_of (es : list (pystr * node)) : list pystr :=
  map fst (filter (fun e => negb (is_dir (snd e))) es).

Definition walk_item : Type := pystr * list pystr * list pystr.

(** [os.walk(top)] with its defaults ([topdown=True], [onerror=None],
    [followlinks=False]) on the node found at [top]: a listing that raises
    [OSError] yields nothing, the triple of a directory comes before those
    of its subdirectories, a subdirectory that is a symbolic link is named
    in [dirs] but not entered, and an exception that is not an [OSError]
    goes through to the loop that drives the generator. *)
Fixpoint walk_node (top : pystr) (n : node) {struct n} : list (walk_item + exn) :=
  match n with
  | File => []
  | Deep e => [inr e]
  | Dir _ None => []
  | Dir _ (Some es) =>
      inl (top, dirs_of es, nondirs_of es) ::
      flat_map (fun e =>
                  match snd e with
                  | Dir false _ => walk_node (os_path_join top (fst e)) (snd e)
                  | Deep _ => walk_node (os_path_join top (fst e)) (snd e)
                  | _ => []
                  end) es
  end.

Definition os_walk (fs : filesystem) (top : pystr) : list (walk_item + exn) :=
  match lookup fs top with
  | Some n => walk_node top n
  | None => []
  end.

(** ** The program *)

Section Program.

Variable fs : filesystem.

(** [with open(file_path, 'r', encoding='utf-8') as file: return file.read()] *)
Definition open_and_read (file_path : pystr) : M string :=
  fun st =>
    let st' := mkState (out st) (stdout st) (opened st ++ [file_path]) in
    match open_read fs file_path with
    | Return content => (Return content, st')
    | Raise e => (Raise e, st')
    end.

Definition read_file_content (file_path : pystr) : M string :=
  try_except
    (open_and_read file_path)
    (fun e => ret ("Error reading file: " ++ str e)).

Definition list_files_recursive (directory : pystr) : M unit :=
  for_gen (os_walk fs directory) (fun '(root, dirs, files) =>
    write (text "Directory: " ++ root ++ text nl)%list ;;
    for_ files (fun file =>
      let file_path := os_path_join root file in
      write (text (nl ++ "--- FILE: ") ++ file_path ++ text (" ---" ++ nl))%list ;;
      content <- read_file_content file_path ;;
      write (text content) ;;
      write (text (nl ++ nl ++ str_mul "=" 80 ++ nl ++ nl)))).

Definition directories : list string :=
  [ "/home/ayes/water-quality-monitor/frontend/components";
    "/home/ayes/water-quality-monitor/frontend/pages" ].

Definition output_file_path : string := "files_content.txt".

(** [with open(path, "w", encoding='utf-8') as output_file: body]: the file
    is created or truncated, then [body] writes to it; when [body] raises
    the file is closed with what was written. *)
Definition with_open_w (path : string) (body : M unit) : M unit :=
  fun st =>
    match open_write fs path with
    | Some e => (Raise e, st)
    | None => body (mkState "" (stdout st) (opened st))
    end.

(** The loop of [main] over the configured roots. *)
Definition scan_root (directory : string) : M unit :=
  write (text ("SCANNING: " ++ directory ++ nl)) ;;
  write (text (str_mul "=" 80 ++ nl ++ nl)) ;;
  if os_path_exists fs (text directory)
  then list_files_recursive (text directory)
  else write (text ("Directory not found: " ++ directory ++ nl ++ nl)).

Definition main : M unit :=
  with_open_w output_file_path
    (write (text ("Files Content" ++ nl)) ;;
     write (text ("=============" ++ nl ++ nl)) ;;
     for_ directories scan_root ;;
     write (text ("End of content listing" ++ nl))) ;;
  print ("Files content has been saved to " ++ output_file_path).

End Program.

(** ** What the report is made of

    The pieces of text below are the ones the theorems compare the program's
    writes with.  A path appears in them by its bytes. *)

(** The value [read_file_content] hands back for a path. *)
Definition reader_result (fs : filesystem) (file_path : pystr) : string :=
  match open_read fs file_path with
  | Return content => content
  | Raise e => "Error reading file: " ++ str e
  end.

Definition file_header (file_path : string) : string :=
  nl ++ "--- FILE: " ++ file_path ++ " ---" ++ nl.

Definition separator : string := nl ++ nl ++ str_mul "=" 80 ++ nl ++ nl.

Definition file_block (fs : filesystem) (file_path : pystr) : string :=
  file_header (fsencode file_path) ++ reader_result fs file_path ++ separator.

Definition dir_line (root : string) : string := "Directory: " ++ root ++ nl.

Definition dir_block (fs : filesystem) (item : walk_item) : string :=
  let '(root, _, files) := item in
  dir_line (fsencode root) ++
  cat (map (fun file => file_block fs (os_path_join root file)) files).

Definition item_paths (item : walk_item) : list pystr :=
  let '(root, _, files) := item in map (os_path_join root) files.

Definition walk_text (fs : filesystem) (directory : pystr) : string :=
  cat (map (dir_block fs) (yields (os_walk fs directory))).

Definition walk_reads (fs : filesystem) (directory : pystr) : list pystr :=
  flat_map item_paths (yields (os_walk fs directory)).

Definition banner (directory : string) : string :=
  "SCANNING: " ++ directory ++ nl ++ str_mul "=" 80 ++ nl ++ nl.

Definition not_found_line (directory : string) : string :=
  "Directory not found: " ++ directory ++ nl ++ nl.

Definition root_body (fs : filesystem) (directory : string) : string :=
  if os_path_exists fs (text directory) then walk_text fs (text directory)
  else not_found_line directory.

Definition root_reads (fs : filesystem) (directory : string) : list pystr :=
  if os_path_exists fs (text directory) then walk_reads fs (text directory) else [].

Definition title : string := "Files Content" ++ nl ++ "=============" ++ nl ++ nl.

Definition trailer : string := "End of content listing" ++ nl.

(** The text a statement writes when it starts on an empty stream. *)
Definition fresh : state := mkState "" "" [].

Definition written (c : M unit) : string := out (snd (c fresh)).

(** The report of a whole run that could open its output file and came to
    its end. *)
Definition report (fs : filesystem) : string :=
  title ++ cat (map (fun d => banner d ++ root_body fs d) directories) ++ trailer.



(** The walk raises nothing and every path the walker has to write can be
    encoded. *)
Definition item_sound (item : walk_item) : bool :=
  let '(root, _, files) := item in
  negb (has_surrogate root) &&
  forallb (fun file => negb (has_surrogate (os_path_join root file))) files.

Definition walk_sound (fs : filesystem) (directory : pystr) : bool :=
  forallb (fun y => match y with
                    | inl item => item_sound item
                    | inr _ => false
                    end)
          (os_walk fs directory).

(** ** The course of a statement

    What a statement of the program does, in order: writes, opens for
    reading, and the raise of an exception that comes from outside.  The
    course is run until the first write that cannot be encoded or the
    first raise. *)

Inductive event : Type :=
| W (chunk : pystr)
| R (path : pystr)
| X (e : exn).

Definition note_open (path : pystr) : M unit :=
  fun st => (Return tt, mkState (out st) (stdout st) (opened st ++ [path])).

Fixpoint run_script (s : list event) : M unit :=
  match s with
  | [] => ret tt
  | W chunk :: rest => write chunk ;; run_script rest
  | R path :: rest => note_open path ;; run_script rest
  | X e :: _ => raise e
  end.

Fixpoint outcome_of (s : list event) : outcome unit :=
  match s with
  | [] => Return tt
  | W chunk :: rest =>
      if has_surrogate chunk then Raise (unicode_encode_error chunk) else outcome_of rest
  | R _ :: rest => outcome_of rest
  | X e :: _ => Raise e
  end.

Fixpoint text_of (s : list event) : string :=
  match s with
  | [] => ""
  | W chunk :: rest =>
      if has_surrogate chunk then "" else fsencode chunk ++ text_of rest
  | R _ :: rest => text_of rest
  | X _ :: _ => ""
  end.

Fixpoint reads_of (s : list event) : list pystr :=
  match s with
  | [] => []
  | W chunk :: rest => if has_surrogate chunk then [] else reads_of rest
  | R path :: rest => path :: reads_of rest
  | X _ :: _ => []
  end.

(** Nothing in the course stops it. *)
Fixpoint ok (s : list event) : bool :=
  match s with
  | [] => true
  | W chunk :: rest => negb (has_surrogate chunk) && ok rest
  | R _ :: rest => ok rest
  | X _ :: _ => false
  end.

Fixpoint full_text (s : list event) : string :=
  match s with
  | [] => ""
  | W chunk :: rest => fsencode chunk ++ full_text rest
  | _ :: rest => full_text rest
  end.

Fixpoint all_reads (s : list event) : list pystr :=
  match s with
  | [] => []
  | R path :: rest => path :: all_reads rest
  | _ :: rest => all_reads rest
  end.

(** [runs c s]: the statement [c] does what the course [s] says. *)
Definition runs (c : M unit) (s : list event) : Prop :=
  forall st, c st = run_script s st.

Definition file_script (fs : filesystem) (root file : pystr) : list event :=
  [ W (text (nl ++ "--- FILE: ") ++ os_path_join root file ++ text (" ---" ++ nl))%list;
    R (os_path_join root file);
    W (text (reader_result fs (os_path_join root file)));
    W (text (nl ++ nl ++ str_mul "=" 80 ++ nl ++ nl)) ].

Definition item_script (fs : filesystem) (item : walk_item) : list event :=
  let '(root, _, files) := item in
  W (text "Directory: " ++ root ++ text nl)%list ::
  flat_map (file_script fs root) files.

Definition yield_script (fs : filesystem) (y : walk_item + exn) : list event :=
  match y with
  | inl item => item_script fs item
  | inr e => [X e]
  end.

Definition walker_script (fs : filesystem) (directory : pystr) : list event :=
  flat_map (yield_script fs) (os_walk fs directory).

Definition scan_script (fs : filesystem) (directory : string) : list event :=
  W (text ("SCANNING: " ++ directory ++ nl)) ::
  W (text (str_mul "=" 80 ++ nl ++ nl)) ::
  (if os_path_exists fs (text directory)
   then walker_script fs (text directory)
   else [W (text ("Directory not found: " ++ directory ++ nl ++ nl))]).

Definition main_script (fs : filesystem) : list event :=
  (W (text ("Files Content" ++ nl)) ::
   W (text ("=============" ++ nl ++ nl)) ::
   flat_map (scan_script fs) directories) ++
  [W (text ("End of content listing" ++ nl))].

(** ** Sample filesystems *)

Definition components : string := "/home/ayes/water-quality-monitor/frontend/components".
Definition pages : string := "/home/ayes/water-quality-monitor/frontend/pages".

Definition no_such_file (p : pystr) : outcome string :=
  Raise (Exn ("[Errno 2] No such file or directory: '" ++ fsencode p ++ "'")).

Definition denied (p : pystr) : outcome string :=
  Raise (Exn ("[Errno 13] Permission denied: '" ++ fsencode p ++ "'")).

(** Neither root exists. *)
Definition fs_missing : filesystem :=
  mkFs (fun _ => None) no_such_file (fun _ => None).

(** [components] is a regular file, [pages] an empty directory. *)
Definition fs_plain_file : filesystem :=
  mkFs (fun p => if pystr_eqb p (text components) then Some File
                 else if pystr_eqb p (text pages) then Some (Dir false (Some []))
                 else None)
       no_such_file
       (fun _ => None).

(** [components] holds the single file [a.txt]; [pages] is missing. *)
Definition fs_hello : filesystem :=
  mkFs (fun p => if pystr_eqb p (text components)
                 then Some (Dir false (Some [(text "a.txt", File)]))
                 else None)
       (fun p => if pystr_eqb p (text (components ++ "/a.txt")) then Return "hello"
                 else no_such_file p)
       (fun _ => None).

(** ** Directories and files of a tree *)

Definition root_of (item : walk_item) : pystr := fst (fst item).

(** What [os.walk] yields below one entry of a listing. *)
Definition sub_walk (top : pystr) (e : pystr * node) : list (walk_item + exn) :=
  match snd e with
  | Dir false _ => walk_node (os_path_join top (fst e)) (snd e)
  | Deep _ => walk_node (os_path_join top (fst e)) (snd e)
  | _ => []
  end.

(** A name as a directory listing gives it: not empty, without ["/"]. *)
Definition name_ok (name : pystr) : bool :=
  negb (is_empty name) && negb (existsb is_sep name).

Fixpoint distinct (l : list pystr) : bool :=
  match l with
  | [] => true
  | x :: rest => negb (existsb (pystr_eqb x) rest) && distinct rest
  end.

(** The names of every listing of the tree are proper and pairwise
    different. *)
Fixpoint names_ok (n : node) : bool :=
  match n with
  | Dir _ (Some es) =>
      distinct (map fst es) &&
      forallb (fun e => name_ok (fst e) && names_ok (snd e)) es
  | _ => true
  end.

(** No name of the tree holds a line break. *)
Fixpoint no_breaks (n : node) : bool :=
  match n with
  | Dir _ (Some es) =>
      forallb (fun e => negb (has_char LF (fsencode (fst e))) && no_breaks (snd e)) es
  | _ => true
  end.

(** [subdirectory top n p]: [p] is the path of a directory of the subtree
    of [n], which sits at [top]: [n] itself or a directory reached from it
    through directories, none of them a symbolic link. *)
Inductive subdirectory : pystr -> node -> pystr -> Prop :=
| subdirectory_top top link listing :
    subdirectory top (Dir link listing) top
| subdirectory_below top link es name listing p :
    In (name, Dir false listing) es ->
    subdirectory (os_path_join top name) (Dir false listing) p ->
    subdirectory top (Dir link (Some es)) p.

(** [entered top n p]: as [subdirectory], and the listing of every
    directory on the way, [p] included, can be read. *)
Inductive entered : pystr -> node -> pystr -> Prop :=
| entered_top top link es :
    entered top (Dir link (Some es)) top
| entered_below top link es name listing p :
    In (name, Dir false listing) es ->
    entered (os_path_join top name) (Dir false listing) p ->
    entered top (Dir link (Some es)) p.

(** [listed top n p]: [p] is the path of a non-directory entry in the
    listing of an entered directory. *)
Inductive listed : pystr -> node -> pystr -> Prop :=
| listed_here top link es name :
    In (name, File) es ->
    listed top (Dir link (Some es)) (os_path_join top name)
| listed_below top link es name listing p :
    In (name, Dir false listing) es ->
    listed (os_path_join top name) (Dir false listing) p ->
    listed top (Dir link (Some es)) p.

(** What [os.path.join top] puts before a name. *)
Definition pre (top : pystr) : pystr :=
  if is_empty top || endswith_sep top then top else (top ++ text "/")%list.

(** A path to which [os.path.join] adds ["/"] and the name. *)
Definition proper (c : pystr) : Prop := c <> [] /\ endswith_sep c = false.

(** What can follow the path of a directory in the path of something below
    it: nothing, or ["/"] and more. *)
Definition tail_ok (s : pystr) : bool :=
  match s with
  | [] => true
  | c :: _ => is_sep c
  end.

Definition under (c q : pystr) : Prop := exists s, q = (c ++ s)%list /\ tail_ok s = true.

(** [q] lies at or below the entry [name] of the directory at [top]. *)
Definition through (top q name : pystr) : Prop :=
  existsb is_sep name = false /\ under (pre top ++ name)%list q.

(** The lines of a file block and of the part of a directory. *)
Definition file_lines (fs : filesystem) (file_path : pystr) : list string :=
  ("" :: ("--- FILE: " ++ fsencode file_path ++ " ---") ::
   lines (reader_result fs file_path ++ nl)) ++
  [""; str_mul "=" 80; ""].

Definition item_lines (fs : filesystem) (item : walk_item) : list string :=
  ("Directory: " ++ fsencode (root_of item)) :: flat_map (file_lines fs) (item_paths item).

(** The property as the specification words it: every directory of the
    subtree of a root is visited once and has its [Directory:] line once in
    what the walker writes. *)
Definition every_directory_once (fs : filesystem) (top : pystr) : Prop :=
  forall n p,
    lookup fs top = Some n ->
    subdirectory top n p ->
    count_occ pystr_dec (map root_of (yields (os_walk fs top))) p = 1
    /\ count_occ string_dec (lines (written (list_files_recursive fs top)))
                 ("Directory: " ++ fsencode p) = 1.

(** [components] holds a directory whose listing is refused. *)
Definition fs_locked : filesystem :=
  mkFs (fun p => if pystr_eqb p (text components)
                 then Some (Dir false (Some [(text "locked", Dir false None)]))
                 else None)
       no_such_file
       (fun _ => None).

(** [components] holds one file, whose text is a [Directory:] line. *)
Definition fs_echo : filesystem :=
  mkFs (fun p => if pystr_eqb p (text components)
                 then Some (Dir false (Some [(text "notes.txt", File)]))
                 else None)
       (fun p => if pystr_eqb p (text (components ++ "/notes.txt"))
                 then Return ("Directory: " ++ components ++ nl)
                 else no_such_file p)
       (fun _ => None).

(** [components] holds a file, a directory with a file, a link to a
    directory, and a directory whose listing is refused. *)
Definition tree_sample : node :=
  Dir false (Some
    [ (text "Chart.tsx", File);
      (text "ui", Dir false (Some [(text "Button.tsx", File)]));
      (text "shared", Dir true (Some [(text "x.ts", File)]));
      (text "locked", Dir false None) ]).

Definition fs_tree : filesystem :=
  mkFs (fun p => if pystr_eqb p (text components) then Some tree_sample else None)
       (fun p => if pystr_eqb p (text (components ++ "/Chart.tsx"))
                 then Return ("export const Chart = 1;" ++ nl)
                 else denied p)
       (fun _ => None).

(** [components] holds a file whose name has a byte that is not UTF-8,
    between two files with plain names, and a subdirectory. *)
Definition odd_name : pystr := (text "caf" ++ [Sur "233"%char] ++ text ".txt")%list.

Definition fs_odd_name : filesystem :=
  mkFs (fun p => if pystr_eqb p (text components)
                 then Some (Dir false (Some
                        [ (text "a.txt", File);
                          (odd_name, File);
                          (text "b.txt", File);
                          (text "ui", Dir false (Some [])) ]))
                 else None)
       (fun p => if pystr_eqb p (text (components ++ "/a.txt")) then Return "hello"
                 else no_such_file p)
       (fun _ => None).

(** [components] holds a directory that [os.walk] cannot enter. *)
Definition fs_too_deep : filesystem :=
  mkFs (fun p => if pystr_eqb p (text components)
                 then Some (Dir false (Some
                        [ (text "a.txt", File);
                          (text "down", Deep (Exn "maximum recursion depth exceeded"));
                          (text "ui", Dir false (Some [])) ]))
                 else None)
       (fun p => if pystr_eqb p (text (components ++ "/a.txt")) then Return "hello"
                 else no_such_file p)
       (fun _ => None).

(** [components] holds a directory whose name has a line break. *)
Definition broken_name : pystr := text ("a" ++ nl ++ "b").

Definition fs_break : filesystem :=
  mkFs (fun p => if pystr_eqb p (text components)
                 then Some (Dir false (Some [(broken_name, Dir false (Some []))]))
                 else None)
       no_such_file
       (fun _ => None).

(** ** Variations of a filesystem *)

(** The same filesystem, except for what reading [p] gives. *)
Definition with_read (fs : filesystem) (p : pystr) (r : outcome string) : filesystem :=
  mkFs (lookup fs)
       (fun q => if pystr_eqb q p then r else open_read fs q)
       (open_write fs).

(** The same filesystem, with other results for the reads. *)
Definition with_reads (fs : filesystem) (reads : pystr -> outcome string) : filesystem :=
  mkFs (lookup fs) reads (open_write fs).

(** The tree with nothing behind the symbolic links found in listings. *)
Fixpoint prune (n : node) : node :=
  match n with
  | File => File
  | Deep e => Deep e
  | Dir link None => Dir link None
  | Dir link (Some es) =>
      Dir link (Some (map (fun e =>
                             (fst e,
                              match snd e with
                              | Dir true _ => Dir true None
                              | _ => prune (snd e)
                              end)) es))
  end.

Definition pruned (fs : filesystem) : filesystem :=
  mkFs (fun p => option_map prune (lookup fs p)) (open_read fs) (open_write fs).

(** [components] with a subdirectory [ui], found at its own path too. *)
Definition fs_nested : filesystem :=
  mkFs (fun p => if pystr_eqb p (text components)
                 then Some (Dir false (Some
                        [ (text "ui", Dir false (Some [(text "Button.tsx", File)]));
                          (text "Chart.tsx", File);
                          (text "shared", Dir true (Some [(text "x.ts", File)])) ]))
                 else if pystr_eqb p (text (components ++ "/ui"))
                 then Some (Dir false (Some [(text "Button.tsx", File)]))
                 else None)
       (fun p => if pystr_eqb p (text (components ++ "/Chart.tsx"))
                 then Return ("export const Chart = 1;" ++ nl)
                 else denied p)
       (fun _ => None).

(** [components] is a directory whose listing is refused. *)
Definition fs_closed_root : filesystem :=
  mkFs (fun p => if pystr_eqb p (text components) then Some (Dir false None) else None)
       denied
       (fun _ => None).

(** ** Strings *)

Lemma append_nil_r (s : string) : s ++ "" = s.
Proof. induction s as [|c s IH]; simpl; [reflexivity | now rewrite IH]. Qed.

Lemma append_assoc (a b c : string) : (a ++ b) ++ c = a ++ b ++ c.
Proof. induction a as [|x a IH]; simpl; [reflexivity | now rewrite IH]. Qed.

Lemma append_inv_head (a b c : string) : a ++ b = a ++ c -> b = c.
Proof.
  induction a as [|x a IH]; simpl; intros H; [exact H|].
  injection H as H. now apply IH.
Qed.

Lemma cat_app (l1 l2 : list string) : cat (l1 ++ l2)%list = cat l1 ++ cat l2.
Proof.
  induction l1 as [|p l1 IH]; simpl; [reflexivity|].
  now rewrite IH, append_assoc.
Qed.

Lemma fsencode_text (s : string) : fsencode (text s) = s.
Proof. induction s as [|c s IH]; simpl; [reflexivity | now rewrite IH]. Qed.

Lemma has_surrogate_text (s : string) : has_surrogate (text s) = false.
Proof. induction s as [|c s IH]; [reflexivity | exact IH]. Qed.

Lemma fsencode_app (a b : pystr) : fsencode (a ++ b)%list = fsencode a ++ fsencode b.
Proof.
  induction a as [|[c|c] a IH]; simpl; [reflexivity | |]; now rewrite IH.
Qed.

Lemma has_surrogate_app (a b : pystr) :
  has_surrogate (a ++ b)%list = has_surrogate a || has_surrogate b.
Proof. unfold has_surrogate. apply existsb_app. Qed.

Lemma fsencode_inj (a b : pystr) :
  has_surrogate a = false -> has_surrogate b = false ->
  fsencode a = fsencode b -> a = b.
Proof.
  revert b. induction a as [|[c|c] a IH]; intros [|[d|d] b] Ha Hb E;
    try discriminate; [reflexivity|].
  simpl in E. injection E as -> E. f_equal. now apply IH.
Qed.

(** ** Running a course *)

Lemma state_eta (st : state) : mkState (out st) (stdout st) (opened st) = st.
Proof. now destruct st. Qed.

Lemma run_script_spec (s : list event) (st : state) :
  run_script s st =
  (outcome_of s,
   mkState (out st ++ text_of s) (stdout st) (opened st ++ reads_of s)).
Proof.
  revert st. induction s as [|[chunk|path|e] s IH]; intros st; cbn [run_script outcome_of text_of reads_of].
  - unfold ret. now rewrite append_nil_r, app_nil_r, state_eta.
  - unfold bind, write. destruct (has_surrogate chunk).
    + now rewrite append_nil_r, app_nil_r, state_eta.
    + rewrite IH. cbn [out stdout opened]. now rewrite append_assoc.
  - unfold bind, note_open. rewrite IH. cbn [out stdout opened].
    now rewrite <- app_assoc.
  - unfold raise. now rewrite append_nil_r, app_nil_r, state_eta.
Qed.

Lemma outcome_ok (s : list event) : outcome_of s = Return tt <-> ok s = true.
Proof.
  induction s as [|[chunk|path|e] s IH]; cbn [outcome_of ok].
  - now split.
  - destruct (has_surrogate chunk); cbn [negb andb]; [now split | exact IH].
  - exact IH.
  - now split.
Qed.

Lemma outcome_unit (s : list event) :
  outcome_of s = Return tt \/ exists e, outcome_of s = Raise e.
Proof.
  destruct (outcome_of s) as [[]|e]; [now left | right; now exists e].
Qed.

Lemma ok_text (s : list event) :
  ok s = true -> text_of s = full_text s /\ reads_of s = all_reads s.
Proof.
  induction s as [|[chunk|path|e] s IH]; cbn [ok text_of reads_of full_text all_reads];
    intros H.
  - now split.
  - apply andb_true_iff in H as [Hc Hs]. apply negb_true_iff in Hc. rewrite Hc.
    destruct (IH Hs) as [-> ->]. now split.
  - destruct (IH H) as [-> ->]. now split.
  - discriminate.
Qed.

Lemma ok_app (a b : list event) : ok (a ++ b)%list = ok a && ok b.
Proof.
  induction a as [|[chunk|path|e] a IH]; cbn [app ok]; try reflexivity; try exact IH.
  now rewrite IH, andb_assoc.
Qed.

Lemma full_text_app (a b : list event) :
  full_text (a ++ b)%list = full_text a ++ full_text b.
Proof.
  induction a as [|[chunk|path|e] a IH]; cbn [app full_text]; try reflexivity; try exact IH.
  now rewrite IH, append_assoc.
Qed.

Lemma all_reads_app (a b : list event) :
  all_reads (a ++ b)%list = (all_reads a ++ all_reads b)%list.
Proof.
  induction a as [|[chunk|path|e] a IH]; cbn [app all_reads]; try reflexivity; try exact IH.
  now rewrite IH.
Qed.

Lemma outcome_of_app (a b : list event) :
  outcome_of (a ++ b)%list =
  match outcome_of a with
  | Return _ => outcome_of b
  | Raise e => Raise e
  end.
Proof.
  induction a as [|[chunk|path|e] a IH]; cbn [app outcome_of]; try reflexivity; try exact IH.
  destruct (has_surrogate chunk); [reflexivity | exact IH].
Qed.

Lemma text_of_app (a b : list event) :
  text_of (a ++ b)%list = if ok a then text_of a ++ text_of b else text_of a.
Proof.
  induction a as [|[chunk|path|e] a IH]; cbn [app text_of ok]; try reflexivity; try exact IH.
  destruct (has_surrogate chunk); cbn [negb andb]; [reflexivity|].
  rewrite IH. destruct (ok a); [now rewrite append_assoc | reflexivity].
Qed.

Lemma reads_of_app (a b : list event) :
  reads_of (a ++ b)%list = if ok a then (reads_of a ++ reads_of b)%list else reads_of a.
Proof.
  induction a as [|[chunk|path|e] a IH]; cbn [app reads_of ok]; try reflexivity; try exact IH.
  - destruct (has_surrogate chunk); cbn [negb andb]; [reflexivity | exact IH].
  - rewrite IH. now destruct (ok a).
Qed.

Lemma ok_flat_map {A} (f : A -> list event) (l : list A) :
  ok (flat_map f l) = forallb (fun a => ok (f a)) l.
Proof.
  induction l as [|a l IH]; [reflexivity|]. cbn [flat_map forallb].
  now rewrite ok_app, IH.
Qed.

Lemma full_text_flat_map {A} (f : A -> list event) (l : list A) :
  full_text (flat_map f l) = cat (map (fun a => full_text (f a)) l).
Proof.
  induction l as [|a l IH]; [reflexivity|]. cbn [flat_map map cat].
  now rewrite full_text_app, IH.
Qed.

Lemma all_reads_flat_map {A} (f : A -> list event) (l : list A) :
  all_reads (flat_map f l) = flat_map (fun a => all_reads (f a)) l.
Proof.
  induction l as [|a l IH]; [reflexivity|]. cbn [flat_map].
  now rewrite all_reads_app, IH.
Qed.

(** What was read before the course stopped is part of what it would read. *)
Lemma reads_of_incl (s : list event) (p : pystr) : In p (reads_of s) -> In p (all_reads s).
Proof.
  induction s as [|[chunk|path|e] s IH]; cbn [reads_of all_reads]; try contradiction.
  - destruct (has_surrogate chunk); [contradiction | exact IH].
  - intros [H|H]; [now left | right; now apply IH].
Qed.

Lemma run_script_app (a b : list event) (st : state) :
  run_script (a ++ b)%list st = (run_script a ;; run_script b) st.
Proof.
  revert st. induction a as [|[chunk|path|e] a IH]; intros st; cbn [app run_script].
  - reflexivity.
  - unfold bind at 1 2 3. destruct (write chunk st) as [[[]|e] st']; [|reflexivity].
    apply IH.
  - unfold bind at 1 2 3. destruct (note_open path st) as [[[]|e] st']; [|reflexivity].
    apply IH.
  - reflexivity.
Qed.

Lemma runs_write (chunk : pystr) : runs (write chunk) [W chunk].
Proof.
  intros st. cbn [run_script]. unfold bind, write, ret.
  now destruct (has_surrogate chunk).
Qed.

Lemma runs_ret : runs (ret tt) [].
Proof. intros st. reflexivity. Qed.

Lemma runs_seq (c1 c2 : M unit) (s1 s2 : list event) :
  runs c1 s1 -> runs c2 s2 -> runs (c1 ;; c2) (s1 ++ s2)%list.
Proof.
  intros H1 H2 st. rewrite run_script_app. unfold bind. rewrite H1.
  destruct (run_script s1 st) as [[[]|e] st']; [apply H2 | reflexivity].
Qed.

Lemma runs_for {A} (xs : list A) (body : A -> M unit) (f : A -> list event) :
  (forall x, runs (body x) (f x)) -> runs (for_ xs body) (flat_map f xs).
Proof.
  intros H. induction xs as [|x xs IH]; cbn [for_ flat_map].
  - apply runs_ret.
  - apply runs_seq; [apply H | exact IH].
Qed.

Lemma runs_for_gen {A} (g : list (A + exn)) (body : A -> M unit) (f : A -> list event) :
  (forall x, runs (body x) (f x)) ->
  runs (for_gen g body)
       (flat_map (fun y => match y with inl x => f x | inr e => [X e] end) g).
Proof.
  intros H. induction g as [|[x|e] g IH]; cbn [for_gen flat_map].
  - apply runs_ret.
  - apply runs_seq; [apply H | exact IH].
  - intros st. reflexivity.
Qed.

Section Runs.

Variable fs : filesystem.

Lemma read_file_content_run (file_path : pystr) (st : state) :
  read_file_content fs file_path st =
  (Return (reader_result fs file_path),
   mkState (out st) (stdout st) (opened st ++ [file_path])).
Proof.
  unfold read_file_content, try_except, open_and_read, reader_result.
  destruct (open_read fs file_path); reflexivity.
Qed.

Lemma runs_read (file_path : pystr) (k : string -> M unit) (s : list event) :
  runs (k (reader_result fs file_path)) s ->
  runs (content <- read_file_content fs file_path ;; k content) (R file_path :: s).
Proof.
  intros H st. cbn [run_script]. unfold bind. rewrite read_file_content_run.
  unfold note_open. apply H.
Qed.

Lemma runs_file (root file : pystr) :
  runs
    (let file_path := os_path_join root file in
     write (text (nl ++ "--- FILE: ") ++ file_path ++ text (" ---" ++ nl))%list ;;
     content <- read_file_content fs file_path ;;
     write (text content) ;;
     write (text (nl ++ nl ++ str_mul "=" 80 ++ nl ++ nl)))
    (file_script fs root file).
Proof.
  cbv zeta. unfold file_script.
  apply (runs_seq _ _ [_] (_ :: _)); [apply runs_write|].
  apply (runs_read _ (fun content => write (text content) ;; write _)).
  apply (runs_seq _ _ [_] [_]); apply runs_write.
Qed.

Lemma runs_item (item : walk_item) :
  runs
    ((fun '(root, dirs, files) =>
        write (text "Directory: " ++ root ++ text nl)%list ;;
        for_ files (fun file =>
          let file_path := os_path_join root file in
          write (text (nl ++ "--- FILE: ") ++ file_path ++ text (" ---" ++ nl))%list ;;
          content <- read_file_content fs file_path ;;
          write (text content) ;;
          write (text (nl ++ nl ++ str_mul "=" 80 ++ nl ++ nl)))) item)
    (item_script fs item).
Proof.
  destruct item as [[root dirs] files]. unfold item_script.
  change (W (text "Directory: " ++ root ++ text nl)%list :: flat_map (file_script fs root) files)
    with ([W (text "Directory: " ++ root ++ text nl)%list] ++ flat_map (file_script fs root) files)%list.
  apply runs_seq; [apply runs_write|].
  apply runs_for. intros file. apply runs_file.
Qed.

Lemma runs_walker (directory : pystr) :
  runs (list_files_recursive fs directory) (walker_script fs directory).
Proof.
  unfold list_files_recursive, walker_script.
  apply (runs_for_gen (os_walk fs directory) _ (item_script fs)).
  intros item. apply runs_item.
Qed.

Lemma runs_scan_root (d : string) : runs (scan_root fs d) (scan_script fs d).
Proof.
  unfold scan_root, scan_script.
  apply (runs_seq _ _ [_] (_ :: _)); [apply runs_write|].
  apply (runs_seq _ _ [_] _); [apply runs_write|].
  destruct (os_path_exists fs (text d)); [apply runs_walker | apply runs_write].
Qed.

Lemma main_run (st : state) :
  main fs st =
  match open_write fs output_file_path with
  | Some e => (Raise e, st)
  | None =>
      match outcome_of (main_script fs) with
      | Return _ =>
          (Return tt,
           mkState (text_of (main_script fs))
                   (stdout st ++ "Files content has been saved to files_content.txt" ++ nl)
                   (opened st ++ reads_of (main_script fs)))
      | Raise e =>
          (Raise e,
           mkState (text_of (main_script fs)) (stdout st)
                   (opened st ++ reads_of (main_script fs)))
      end
  end.
Proof.
  unfold main. unfold bind at 1. unfold with_open_w.
  destruct (open_write fs output_file_path) as [e|]; [reflexivity|].
  assert (H : runs
            (write (text ("Files Content" ++ nl)) ;;
             write (text ("=============" ++ nl ++ nl)) ;;
             for_ directories (scan_root fs) ;;
             write (text ("End of content listing" ++ nl)))
            (main_script fs)).
  { unfold main_script.
    apply (runs_seq _ _ [_] (_ ++ _)); [apply runs_write|].
    apply (runs_seq _ _ [_] (_ ++ _)); [apply runs_write|].
    apply runs_seq; [|apply runs_write].
    apply runs_for. intros d. apply runs_scan_root. }
  rewrite H, run_script_spec. cbn [out stdout opened].
  destruct (outcome_of (main_script fs)) as [[]|e]; reflexivity.
Qed.

End Runs.

(** ** Lines *)

Lemma has_char_app (c : ascii) (a b : string) :
  has_char c (a ++ b) = has_char c a || has_char c b.
Proof.
  induction a as [|x a IH]; simpl; [reflexivity|].
  now rewrite IH, orb_assoc.
Qed.

Lemma lines_closed_nonempty (a : string) : lines (a ++ nl) <> [].
Proof.
  induction a as [|c a IH]; simpl; [discriminate|].
  destruct (Ascii.eqb c LF); [discriminate|].
  destruct (lines (a ++ nl)); discriminate.
Qed.

Lemma lines_app_nl (a b : string) :
  lines (a ++ nl ++ b) = (lines (a ++ nl) ++ lines b)%list.
Proof.
  induction a as [|c a IH]; [reflexivity|].
  change ((String c a) ++ nl ++ b) with (String c (a ++ nl ++ b)).
  change ((String c a) ++ nl) with (String c (a ++ nl)).
  cbn [lines]. destruct (Ascii.eqb c LF).
  - now rewrite IH.
  - rewrite IH. pose proof (lines_closed_nonempty a) as Hne.
    destruct (lines (a ++ nl)); [contradiction | reflexivity].
Qed.

Lemma lines_one (a : string) : has_char LF a = false -> lines (a ++ nl) = [a].
Proof.
  induction a as [|c a IH]; intros H; [reflexivity|].
  simpl in H. apply orb_false_iff in H as [Hc Ha].
  change ((String c a) ++ nl) with (String c (a ++ nl)).
  cbn [lines]. rewrite Hc, (IH Ha). reflexivity.
Qed.

Lemma lines_cons (a b : string) :
  has_char LF a = false -> lines (a ++ nl ++ b) = a :: lines b.
Proof. intros H. now rewrite lines_app_nl, (lines_one a H). Qed.

Lemma forallb_ext {A} (f g : A -> bool) (l : list A) :
  (forall a, f a = g a) -> forallb f l = forallb g l.
Proof.
  intros H. induction l as [|a l IH]; [reflexivity|]. cbn [forallb].
  now rewrite H, IH.
Qed.

(** ** The text and the reads of the courses of the program *)

Section Courses.

Variable fs : filesystem.

Lemma full_text_file_script (root file : pystr) :
  full_text (file_script fs root file) = file_block fs (os_path_join root file).
Proof.
  unfold file_script, file_block, file_header, separator. cbn [full_text].
  rewrite !fsencode_app, !fsencode_text, !append_assoc, append_nil_r. reflexivity.
Qed.

Lemma all_reads_file_script (root file : pystr) :
  all_reads (file_script fs root file) = [os_path_join root file].
Proof. reflexivity. Qed.

Lemma ok_file_script (root file : pystr) :
  ok (file_script fs root file) = negb (has_surrogate (os_path_join root file)).
Proof.
  unfold file_script. cbn [ok].
  rewrite !has_surrogate_app, !has_surrogate_text. cbn [orb negb andb].
  now rewrite orb_false_r, andb_true_r.
Qed.

Lemma full_text_item_script (item : walk_item) :
  full_text (item_script fs item) = dir_block fs item.
Proof.
  destruct item as [[root dirs] files]. unfold item_script, dir_block, dir_line.
  cbn [full_text]. rewrite full_text_flat_map, !fsencode_app, !fsencode_text.
  rewrite (map_ext _ _ (full_text_file_script root)).
  now rewrite !append_assoc.
Qed.

Lemma all_reads_item_script (item : walk_item) :
  all_reads (item_script fs item) = item_paths item.
Proof.
  destruct item as [[root dirs] files]. unfold item_script, item_paths.
  cbn [all_reads]. rewrite all_reads_flat_map.
  induction files as [|f files IH]; [reflexivity|]. cbn [flat_map map].
  now rewrite IH.
Qed.

Lemma ok_item_script (item : walk_item) : ok (item_script fs item) = item_sound item.
Proof.
  destruct item as [[root dirs] files]. unfold item_script, item_sound.
  cbn [ok]. rewrite ok_flat_map, !has_surrogate_app, !has_surrogate_text.
  cbn [orb]. rewrite orb_false_r. f_equal.
  apply forallb_ext. intros file. apply ok_file_script.
Qed.

Lemma full_text_walker (directory : pystr) :
  full_text (walker_script fs directory) = walk_text fs directory.
Proof.
  unfold walker_script, walk_text. rewrite full_text_flat_map.
  induction (os_walk fs directory) as [|[item|e] g IH]; [reflexivity | |].
  - cbn [map cat yields yield_script]. now rewrite IH, full_text_item_script.
  - cbn [map cat yields yield_script full_text]. exact IH.
Qed.

Lemma all_reads_walker (directory : pystr) :
  all_reads (walker_script fs directory) = walk_reads fs directory.
Proof.
  unfold walker_script, walk_reads. rewrite all_reads_flat_map.
  induction (os_walk fs directory) as [|[item|e] g IH]; [reflexivity | |].
  - cbn [flat_map yields yield_script]. now rewrite IH, all_reads_item_script.
  - cbn [flat_map yields yield_script all_reads]. exact IH.
Qed.

Lemma ok_walker (directory : pystr) :
  ok (walker_script fs directory) = walk_sound fs directory.
Proof.
  unfold walker_script, walk_sound. rewrite ok_flat_map.
  apply forallb_ext. intros [item|e]; [apply ok_item_script | reflexivity].
Qed.

(** With nothing to raise, the generator yields what the walker goes
    through. *)
Lemma walk_sound_no_raise (directory : pystr) :
  walk_sound fs directory = true ->
  os_walk fs directory = map inl (yields (os_walk fs directory)).
Proof.
  unfold walk_sound. induction (os_walk fs directory) as [|[item|e] g IH];
    cbn [forallb yields map]; intros H.
  - reflexivity.
  - apply andb_true_iff in H as [_ H]. now rewrite <- IH.
  - discriminate.
Qed.

Lemma full_text_scan (d : string) :
  full_text (scan_script fs d) = banner d ++ root_body fs d.
Proof.
  unfold scan_script, banner, root_body, not_found_line. cbn [full_text].
  rewrite !fsencode_text.
  destruct (os_path_exists fs (text d)).
  - rewrite full_text_walker. now rewrite !append_assoc.
  - cbn [full_text]. rewrite fsencode_text, append_nil_r. now rewrite !append_assoc.
Qed.

Lemma all_reads_scan (d : string) : all_reads (scan_script fs d) = root_reads fs d.
Proof.
  unfold scan_script, root_reads. cbn [all_reads].
  destruct (os_path_exists fs (text d)); [apply all_reads_walker | reflexivity].
Qed.

(** The two banner writes always go through. *)
Lemma text_of_scan (d : string) :
  text_of (scan_script fs d) =
  "SCANNING: " ++ d ++ nl ++ str_mul "=" 80 ++ nl ++ nl ++
  text_of (if os_path_exists fs (text d)
           then walker_script fs (text d)
           else [W (text ("Directory not found: " ++ d ++ nl ++ nl))]).
Proof.
  unfold scan_script. cbn [text_of]. rewrite !has_surrogate_text, !fsencode_text.
  now rewrite !append_assoc.
Qed.

Lemma outcome_of_scan (d : string) :
  outcome_of (scan_script fs d) =
  outcome_of (if os_path_exists fs (text d)
              then walker_script fs (text d)
              else [W (text ("Directory not found: " ++ d ++ nl ++ nl))]).
Proof.
  unfold scan_script. cbn [outcome_of]. now rewrite !has_surrogate_text.
Qed.

Lemma reads_of_scan (d : string) :
  reads_of (scan_script fs d) =
  reads_of (if os_path_exists fs (text d)
            then walker_script fs (text d)
            else [W (text ("Directory not found: " ++ d ++ nl ++ nl))]).
Proof.
  unfold scan_script. cbn [reads_of]. now rewrite !has_surrogate_text.
Qed.


Lemma full_text_main : full_text (main_script fs) = report fs.
Proof.
  unfold main_script, report, title, trailer. rewrite full_text_app.
  cbn [full_text]. rewrite full_text_flat_map, !fsencode_text.
  rewrite (map_ext _ _ full_text_scan).
  now rewrite !append_assoc, append_nil_r.
Qed.

Lemma all_reads_main :
  all_reads (main_script fs) = flat_map (root_reads fs) directories.
Proof.
  unfold main_script. rewrite all_reads_app. cbn [all_reads].
  rewrite all_reads_flat_map, app_nil_r.
  apply flat_map_ext. intros d. apply all_reads_scan.
Qed.

Lemma written_runs (c : M unit) (s : list event) : runs c s -> written c = text_of s.
Proof. intros H. unfold written. now rewrite H, run_script_spec. Qed.

End Courses.

(** ** Trees *)

Lemma node_ind (P : node -> Prop)
      (HFile : P File)
      (HDeep : forall e, P (Deep e))
      (HNone : forall link, P (Dir link None))
      (HSome : forall link es, Forall (fun e => P (snd e)) es -> P (Dir link (Some es))) :
  forall n, P n.
Proof.
  fix IH 1. intros [|link [es|]|e].
  - exact HFile.
  - apply HSome. induction es as [|x es IHes]; constructor.
    + apply IH.
    + exact IHes.
  - apply HNone.
  - apply HDeep.
Qed.

Lemma walk_node_listing (top : pystr) (link : bool) (es : list (pystr * node)) :
  walk_node top (Dir link (Some es)) =
  inl (top, dirs_of es, nondirs_of es) :: flat_map (sub_walk top) es.
Proof. reflexivity. Qed.

Lemma yields_app {A} (g1 g2 : list (A + exn)) :
  yields (g1 ++ g2)%list = (yields g1 ++ yields g2)%list.
Proof.
  induction g1 as [|[x|e] g1 IH]; cbn [app yields]; [reflexivity | | exact IH].
  now rewrite IH.
Qed.

Lemma yields_flat_map {A B} (f : A -> list (B + exn)) (l : list A) :
  yields (flat_map f l) = flat_map (fun a => yields (f a)) l.
Proof.
  induction l as [|a l IH]; [reflexivity|]. cbn [flat_map].
  now rewrite yields_app, IH.
Qed.

Lemma yields_walk_listing (top : pystr) (link : bool) (es : list (pystr * node)) :
  yields (walk_node top (Dir link (Some es))) =
  (top, dirs_of es, nondirs_of es) :: flat_map (fun e => yields (sub_walk top e)) es.
Proof. rewrite walk_node_listing. cbn [yields]. now rewrite yields_flat_map. Qed.

Lemma pystr_eqb_eq (a b : pystr) : pystr_eqb a b = true <-> a = b.
Proof. unfold pystr_eqb. destruct (pystr_dec a b); split; congruence. Qed.

Lemma distinct_NoDup (l : list pystr) : distinct l = true -> NoDup l.
Proof.
  induction l as [|x l IH]; simpl; intros H; constructor.
  - apply andb_true_iff in H as [H _]. apply negb_true_iff in H.
    intros Hin. assert (Hex : existsb (pystr_eqb x) l = true).
    { apply existsb_exists. exists x. split; [exact Hin | now apply pystr_eqb_eq]. }
    congruence.
  - apply IH. now apply andb_true_iff in H as [_ H].
Qed.

Lemma names_ok_listing (link : bool) (es : list (pystr * node)) :
  names_ok (Dir link (Some es)) = true ->
  NoDup (map fst es)
  /\ forall e, In e es -> name_ok (fst e) = true /\ names_ok (snd e) = true.
Proof.
  cbn [names_ok]. intros H. apply andb_true_iff in H as [Hd Hall]. split.
  - now apply distinct_NoDup.
  - intros e He. rewrite forallb_forall in Hall.
    specialize (Hall e He). now apply andb_true_iff in Hall.
Qed.

Lemma no_breaks_listing (link : bool) (es : list (pystr * node)) :
  no_breaks (Dir link (Some es)) = true ->
  forall e, In e es ->
    has_char LF (fsencode (fst e)) = false /\ no_breaks (snd e) = true.
Proof.
  cbn [no_breaks]. intros H e He. rewrite forallb_forall in H.
  specialize (H e He). apply andb_true_iff in H as [H1 H2].
  now apply negb_true_iff in H1.
Qed.

(** ** Paths *)

Lemma name_ok_spec (name : pystr) :
  name_ok name = true -> name <> [] /\ existsb is_sep name = false.
Proof.
  unfold name_ok. intros H. apply andb_true_iff in H as [Hne Hsep].
  apply negb_true_iff in Hne, Hsep. split; [|exact Hsep].
  intros ->. discriminate.
Qed.

Lemma no_sep_start (name : pystr) :
  existsb is_sep name = false -> startswith_sep name = false.
Proof.
  destruct name as [|c name]; [reflexivity|]. simpl.
  intros H. now apply orb_false_iff in H as [H _].
Qed.

Lemma no_sep_end (name : pystr) :
  existsb is_sep name = false -> endswith_sep name = false.
Proof.
  induction name as [|c name IH]; [reflexivity|]. simpl.
  intros H. apply orb_false_iff in H as [Hc Hrest].
  destruct name; [exact Hc | now apply IH].
Qed.

Lemma endswith_sep_app (a name : pystr) :
  name <> [] -> endswith_sep (a ++ name)%list = endswith_sep name.
Proof.
  intros Hne. induction a as [|c a IH]; [reflexivity|].
  cbn [app endswith_sep]. destruct (a ++ name)%list eqn:E; [|exact IH].
  apply app_eq_nil in E as [_ E]. contradiction.
Qed.

Lemma join_pre (top name : pystr) :
  startswith_sep name = false -> os_path_join top name = (pre top ++ name)%list.
Proof.
  intros H. unfold os_path_join, pre. rewrite H.
  destruct (is_empty top || endswith_sep top); [reflexivity|].
  now rewrite <- app_assoc.
Qed.

Lemma pre_proper (c : pystr) : proper c -> pre c = (c ++ text "/")%list.
Proof.
  intros [Hne Hend]. unfold pre. rewrite Hend.
  destruct c; [contradiction | reflexivity].
Qed.

Lemma proper_child (top name : pystr) :
  name_ok name = true -> proper (pre top ++ name)%list.
Proof.
  intros H. apply name_ok_spec in H as (Hne & Hsep). split.
  - intros E. apply app_eq_nil in E as [_ E]. contradiction.
  - rewrite endswith_sep_app by exact Hne. now apply no_sep_end.
Qed.

Lemma join_name (top name : pystr) :
  name_ok name = true -> os_path_join top name = (pre top ++ name)%list.
Proof.
  intros H. apply join_pre, no_sep_start. now apply name_ok_spec in H.
Qed.

Lemma length_pre (top : pystr) : length top <= length (pre top).
Proof.
  unfold pre. destruct (is_empty top || endswith_sep top); [lia|].
  rewrite length_app. lia.
Qed.

Lemma split_unique (n1 n2 s1 s2 : pystr) :
  existsb is_sep n1 = false -> existsb is_sep n2 = false ->
  tail_ok s1 = true -> tail_ok s2 = true ->
  (n1 ++ s1 = n2 ++ s2)%list -> n1 = n2.
Proof.
  revert n2. induction n1 as [|c n1 IH]; intros [|d n2] H1 H2 T1 T2 E.
  - reflexivity.
  - simpl in E. subst s1. simpl in T1, H2.
    apply orb_false_iff in H2 as [H2 _]. congruence.
  - simpl in E. subst s2. simpl in T2, H1.
    apply orb_false_iff in H1 as [H1 _]. congruence.
  - simpl in E. injection E as -> E. f_equal.
    simpl in H1, H2. apply orb_false_iff in H1 as [_ H1].
    apply orb_false_iff in H2 as [_ H2]. now apply IH.
Qed.

Lemma through_unique (top q k1 k2 : pystr) :
  through top q k1 -> through top q k2 -> k1 = k2.
Proof.
  intros [H1 (s1 & E1 & T1)] [H2 (s2 & E2 & T2)].
  rewrite E1, <- !app_assoc in E2. apply app_inv_head in E2.
  now apply (split_unique k1 k2 s1 s2).
Qed.

Lemma through_longer (top q name : pystr) :
  name <> [] -> through top q name -> q <> top.
Proof.
  intros Hne [_ (s & E & _)] ->. apply (f_equal (@length pychar)) in E.
  rewrite !length_app in E. pose proof (length_pre top).
  destruct name; [contradiction | simpl in E; lia].
Qed.

Lemma under_child (c name q : pystr) :
  under (c ++ text "/" ++ name)%list q -> under c q.
Proof.
  intros (s & E & T). exists (text "/" ++ name ++ s)%list. split; [|reflexivity].
  now rewrite E, <- !app_assoc.
Qed.

Lemma pre_extends (top : pystr) : exists x, pre top = (top ++ x)%list.
Proof.
  unfold pre. destruct (is_empty top || endswith_sep top).
  - exists []. now rewrite app_nil_r.
  - now exists (text "/").
Qed.

Lemma through_extends (top q name : pystr) :
  through top q name -> exists rest, q = (top ++ rest)%list.
Proof.
  intros [_ (s & -> & _)]. destruct (pre_extends top) as [x ->].
  exists (x ++ name ++ s)%list. now rewrite <- !app_assoc.
Qed.

(** ** Lists without repetition *)

Lemma map_flat_map {A B C} (g : B -> C) (f : A -> list B) (l : list A) :
  map g (flat_map f l) = flat_map (fun a => map g (f a)) l.
Proof.
  induction l as [|a l IH]; simpl; [reflexivity|].
  now rewrite map_app, IH.
Qed.

Lemma flat_map_flat_map {A B C} (g : B -> list C) (f : A -> list B) (l : list A) :
  flat_map g (flat_map f l) = flat_map (fun a => flat_map g (f a)) l.
Proof.
  induction l as [|a l IH]; simpl; [reflexivity|].
  now rewrite flat_map_app, IH.
Qed.

Lemma cat_map_flat_map {A B} (f : B -> string) (g : A -> list B) (l : list A) :
  cat (map f (flat_map g l)) = cat (map (fun a => cat (map f (g a))) l).
Proof.
  induction l as [|a l IH]; [reflexivity|]. cbn [flat_map map cat].
  now rewrite map_app, cat_app, IH.
Qed.

(** Pieces whose elements carry the key of their piece, the keys being
    pairwise different, have no element in common. *)
Lemma NoDup_flat_map_keyed {A B K} (key : A -> K) (f : A -> list B)
      (tag : B -> K -> Prop) (l : list A) :
  NoDup (map key l) ->
  (forall a, In a l -> NoDup (f a)) ->
  (forall a x, In a l -> In x (f a) -> tag x (key a)) ->
  (forall x k1 k2, tag x k1 -> tag x k2 -> k1 = k2) ->
  NoDup (flat_map f l).
Proof.
  intros Hkeys Hpiece Htag Huniq.
  induction l as [|a l IH]; simpl; [constructor|].
  inversion Hkeys as [|k ks Hnotin Hrest]; subst.
  apply NoDup_app.
  - apply Hpiece. now left.
  - apply IH; [exact Hrest | | ].
    + intros b Hb. apply Hpiece. now right.
    + intros b x Hb. apply Htag. now right.
  - intros x Hx Hx'. apply in_flat_map in Hx' as (b & Hb & Hxb).
    apply Hnotin. apply in_map_iff. exists b. split; [|exact Hb].
    apply (Huniq x).
    + apply Htag; [now right | exact Hxb].
    + apply Htag; [now left | exact Hx].
Qed.

Lemma NoDup_map_on {A B} (f : A -> B) (l : list A) :
  (forall x y, In x l -> In y l -> f x = f y -> x = y) ->
  NoDup l -> NoDup (map f l).
Proof.
  intros Hinj Hl. induction Hl as [|x l Hx Hl IH]; simpl; constructor.
  - intros Hin. apply in_map_iff in Hin as (y & Hy & Hyl).
    apply Hx. rewrite (Hinj x y); [exact Hyl | now left | now right | now symmetry].
  - apply IH. intros a b Ha Hb. apply Hinj; now right.
Qed.

Lemma NoDup_map_fst_filter {A B} (keep : A * B -> bool) (es : list (A * B)) :
  NoDup (map fst es) -> NoDup (map fst (filter keep es)).
Proof.
  induction es as [|e es IH]; simpl; intros H; [constructor|].
  inversion H as [|k ks Hnotin Hrest]; subst.
  destruct (keep e); simpl; [constructor|]; [|now apply IH | now apply IH].
  intros Hin. apply Hnotin. apply in_map_iff in Hin as (e' & He' & Hin).
  apply filter_In in Hin as [Hin _]. apply in_map_iff. now exists e'.
Qed.

Lemma same_name_same_entry {A B} (es : list (A * B)) (e e' : A * B) :
  NoDup (map fst es) -> In e es -> In e' es -> fst e = fst e' -> e = e'.
Proof.
  induction es as [|x es IH]; simpl; intros H He He' Heq; [contradiction|].
  inversion H as [|k ks Hnotin Hrest]; subst.
  destruct He as [->|He], He' as [->|He'].
  - reflexivity.
  - exfalso. apply Hnotin. rewrite Heq. now apply in_map.
  - exfalso. apply Hnotin. rewrite <- Heq. now apply in_map.
  - now apply IH.
Qed.

(** ** The shape of the paths of a walk *)

Lemma sub_walk_inv (top : pystr) (e : pystr * node) (item : walk_item) :
  In item (yields (sub_walk top e)) ->
  exists listing,
    snd e = Dir false listing
    /\ In item (yields (walk_node (os_path_join top (fst e)) (snd e))).
Proof.
  unfold sub_walk. destruct (snd e) as [|[|] listing|x]; try contradiction.
  intros H. now exists listing.
Qed.

Lemma nondirs_of_inv (es : list (pystr * node)) (file : pystr) :
  In file (nondirs_of es) -> In (file, File) es.
Proof.
  unfold nondirs_of. intros H. apply in_map_iff in H as ([name child] & He & Hin).
  apply filter_In in Hin as [Hin Hk]. cbn [fst snd] in *. subst name.
  destruct child; try discriminate. exact Hin.
Qed.

Lemma walk_shape (n : node) :
  forall c, proper c -> names_ok n = true ->
    (forall r, In r (map root_of (yields (walk_node c n))) -> under c r /\ proper r)
    /\ (forall p, In p (flat_map item_paths (yields (walk_node c n))) -> under c p).
Proof.
  induction n as [|e|link|link es IH] using node_ind; intros c Hc Hwf;
    try (split; intros ? []).
  rewrite Forall_forall in IH. rewrite yields_walk_listing.
  destruct (names_ok_listing _ _ Hwf) as [_ Hall].
  assert (Hsub : forall e item, In e es -> In item (yields (sub_walk c e)) ->
             exists c', proper c' /\ (forall q, under c' q -> under c q)
                        /\ In item (yields (walk_node c' (snd e)))
                        /\ names_ok (snd e) = true).
  { intros e item He Hitem. apply sub_walk_inv in Hitem as (ls & _ & Hitem).
    destruct (Hall e He) as [Hname Hwfe].
    exists (os_path_join c (fst e)). rewrite (join_name _ _ Hname) in *.
    split; [now apply proper_child|]. split; [|now split].
    rewrite (pre_proper c Hc), <- app_assoc. intros q. now apply under_child. }
  split.
  - intros r [<-|Hr].
    + split; [|exact Hc]. exists []. now rewrite app_nil_r.
    + apply in_map_iff in Hr as (item & <- & Hitem).
      apply in_flat_map in Hitem as (e & He & Hitem).
      destruct (Hsub e item He Hitem) as (c' & Hc' & Hup & Hin & Hwfe).
      destruct (IH e He c' Hc' Hwfe) as [Hroots _].
      destruct (Hroots (root_of item)) as [Hu Hp]; [now apply in_map|].
      split; [now apply Hup | exact Hp].
  - intros p Hp. cbn [flat_map item_paths] in Hp. apply in_app_or in Hp as [Hp|Hp].
    + apply in_map_iff in Hp as (file & <- & Hfile).
      apply nondirs_of_inv in Hfile.
      destruct (Hall _ Hfile) as [Hname _]. cbn [fst] in Hname.
      rewrite (join_name _ _ Hname), (pre_proper c Hc), <- app_assoc.
      now exists (text "/" ++ file)%list.
    + apply in_flat_map in Hp as (item & Hitem & Hp).
      apply in_flat_map in Hitem as (e & He & Hitem).
      destruct (Hsub e item He Hitem) as (c' & Hc' & Hup & Hin & Hwfe).
      destruct (IH e He c' Hc' Hwfe) as [_ Hpaths].
      apply Hup, Hpaths. apply in_flat_map. now exists item.
Qed.

(** Whatever the walk finds below an entry of the listing at [top] has a
    path that goes through the name of that entry. *)
Lemma sub_walk_through (top : pystr) (e : pystr * node) :
  name_ok (fst e) = true -> names_ok (snd e) = true ->
  (forall r, In r (map root_of (yields (sub_walk top e))) -> through top r (fst e))
  /\ (forall p, In p (flat_map item_paths (yields (sub_walk top e))) ->
                through top p (fst e)).
Proof.
  intros Hname Hwf.
  assert (Hsep : existsb is_sep (fst e) = false) by now apply name_ok_spec in Hname.
  pose proof (walk_shape (snd e) (pre top ++ fst e)%list (proper_child top _ Hname) Hwf)
    as [Hroots Hpaths].
  unfold sub_walk. rewrite (join_name _ _ Hname).
  destruct (snd e) as [|[|] listing|x]; try (split; intros ? []).
  split.
  - intros r Hr. split; [exact Hsep | now apply Hroots].
  - intros p Hp. split; [exact Hsep | now apply Hpaths].
Qed.

(** ** Each directory and each file once *)

Lemma walk_NoDup (n : node) :
  forall top, names_ok n = true ->
    NoDup (map root_of (yields (walk_node top n)))
    /\ NoDup (flat_map item_paths (yields (walk_node top n))).
Proof.
  induction n as [|e|link|link es IH] using node_ind; intros top Hwf;
    try (split; constructor).
  rewrite Forall_forall in IH. rewrite yields_walk_listing.
  destruct (names_ok_listing _ _ Hwf) as [Hnames Hall].
  assert (Hpiece : forall e, In e es ->
             NoDup (map root_of (yields (sub_walk top e)))
             /\ NoDup (flat_map item_paths (yields (sub_walk top e)))).
  { intros e He. destruct (Hall e He) as [_ Hwfe]. unfold sub_walk.
    destruct (snd e) as [|[|] listing|x] eqn:E; try (split; constructor).
    rewrite <- E in *. now apply (IH e He). }
  assert (Hthrough : forall e, In e es ->
             (forall r, In r (map root_of (yields (sub_walk top e))) ->
                        through top r (fst e))
             /\ (forall p, In p (flat_map item_paths (yields (sub_walk top e))) ->
                           through top p (fst e))).
  { intros e He. destruct (Hall e He). now apply sub_walk_through. }
  split.
  - cbn [map]. change (root_of (top, dirs_of es, nondirs_of es)) with top.
    rewrite map_flat_map. constructor.
    + intros Hin. apply in_flat_map in Hin as (e & He & Hin).
      destruct (Hall e He) as [Hname _]. apply name_ok_spec in Hname as [Hne _].
      apply (through_longer top top (fst e) Hne); [|reflexivity].
      now apply (proj1 (Hthrough e He)).
    + apply (NoDup_flat_map_keyed fst _ (through top)); [exact Hnames | | | ].
      * intros e He. now apply (proj1 (Hpiece e He)).
      * intros e r He. now apply (proj1 (Hthrough e He)).
      * apply through_unique.
  - cbn [flat_map item_paths]. rewrite flat_map_flat_map. apply NoDup_app.
    + unfold nondirs_of. rewrite map_map.
      assert (Hjoin : forall e, In e (filter (fun e => negb (is_dir (snd e))) es) ->
                      os_path_join top (fst e) = (pre top ++ fst e)%list).
      { intros e He. apply filter_In in He as [He _].
        apply join_name. now apply Hall. }
      apply NoDup_map_on.
      * intros x y Hx Hy. rewrite (Hjoin x Hx), (Hjoin y Hy). intros E.
        apply app_inv_head in E.
        apply filter_In in Hx as [Hx _]. apply filter_In in Hy as [Hy _].
        now apply (same_name_same_entry es).
      * apply NoDup_map_inv with (f := fst). now apply NoDup_map_fst_filter.
    + apply (NoDup_flat_map_keyed fst _ (through top)); [exact Hnames | | | ].
      * intros e He. now apply (proj2 (Hpiece e He)).
      * intros e r He. now apply (proj2 (Hthrough e He)).
      * apply through_unique.
    + intros p Hp Hp'. apply in_map_iff in Hp as (file & <- & Hfile).
      apply nondirs_of_inv in Hfile.
      apply in_flat_map in Hp' as (e' & He' & Hp').
      assert (He'dir : is_dir (snd e') = true).
      { unfold sub_walk in Hp'. destruct (snd e'); [contradiction | reflexivity | reflexivity]. }
      assert (Heq : file = fst e').
      { apply (through_unique top (os_path_join top file)).
        - destruct (Hall _ Hfile) as [Hname _]. cbn [fst] in Hname.
          rewrite (join_name _ _ Hname).
          split; [now apply name_ok_spec in Hname|].
          exists []. now rewrite app_nil_r.
        - now apply (proj2 (Hthrough e' He')). }
      rewrite <- (same_name_same_entry es (file, File) e' Hnames Hfile He' Heq) in He'dir.
      discriminate.
Qed.

Lemma entered_visited (top : pystr) (n : node) (p : pystr) :
  entered top n p -> In p (map root_of (yields (walk_node top n))).
Proof.
  induction 1 as [top link es | top link es name listing p Hin _ IH];
    rewrite yields_walk_listing; cbn [map].
  - now left.
  - right. rewrite map_flat_map. apply in_flat_map.
    exists (name, Dir false listing). split; [exact Hin | exact IH].
Qed.

Lemma visited_entered (n : node) :
  forall top p, In p (map root_of (yields (walk_node top n))) -> entered top n p.
Proof.
  induction n as [|e|link|link es IH] using node_ind; intros top p Hp;
    try contradiction.
  rewrite Forall_forall in IH. rewrite yields_walk_listing in Hp.
  destruct Hp as [<-|Hp]; [constructor|].
  rewrite map_flat_map in Hp. apply in_flat_map in Hp as ([name child] & He & Hp).
  unfold sub_walk in Hp. cbn [fst snd] in Hp.
  destruct child as [|[|] listing|x]; try contradiction.
  apply entered_below with (name := name) (listing := listing); [exact He|].
  now apply (IH _ He).
Qed.

Lemma listed_read (top : pystr) (n : node) (p : pystr) :
  listed top n p -> In p (flat_map item_paths (yields (walk_node top n))).
Proof.
  induction 1 as [top link es name Hin | top link es name listing p Hin _ IH];
    rewrite yields_walk_listing; cbn [flat_map item_paths]; apply in_or_app.
  - left. apply in_map. unfold nondirs_of.
    apply in_map_iff. exists (name, File). split; [reflexivity|].
    apply filter_In. now split.
  - right. rewrite flat_map_flat_map. apply in_flat_map.
    exists (name, Dir false listing). split; [exact Hin | exact IH].
Qed.

Lemma read_listed (n : node) :
  forall top p, In p (flat_map item_paths (yields (walk_node top n))) -> listed top n p.
Proof.
  induction n as [|e|link|link es IH] using node_ind; intros top p Hp;
    try contradiction.
  rewrite Forall_forall in IH. rewrite yields_walk_listing in Hp.
  cbn [flat_map item_paths] in Hp. apply in_app_or in Hp as [Hp|Hp].
  - apply in_map_iff in Hp as (file & <- & Hfile).
    apply nondirs_of_inv in Hfile. now apply listed_here.
  - apply in_flat_map in Hp as (item & Hitem & Hp).
    apply in_flat_map in Hitem as ([name child] & He & Hitem).
    apply sub_walk_inv in Hitem as (listing & Hchild & Hitem).
    cbn [fst snd] in *. subst child.
    apply listed_below with (name := name) (listing := listing); [exact He|].
    apply (IH _ He). apply in_flat_map. now exists item.
Qed.

(** No path of the walk holds a line break when the root and the names of
    the tree hold none. *)
Lemma join_no_break (top name : pystr) :
  has_char LF (fsencode top) = false ->
  has_char LF (fsencode name) = false ->
  has_char LF (fsencode (os_path_join top name)) = false.
Proof.
  intros Htop Hname. unfold os_path_join.
  destruct (startswith_sep name); [exact Hname|].
  destruct (is_empty top || endswith_sep top);
    rewrite ?fsencode_app, ?has_char_app, Htop, Hname; reflexivity.
Qed.

Lemma walk_no_break (n : node) :
  forall top, has_char LF (fsencode top) = false -> no_breaks n = true ->
    forall item, In item (yields (walk_node top n)) ->
      has_char LF (fsencode (root_of item)) = false
      /\ forall p, In p (item_paths item) -> has_char LF (fsencode p) = false.
Proof.
  induction n as [|e|link|link es IH] using node_ind; intros top Htop Hwf item Hitem;
    try contradiction.
  rewrite Forall_forall in IH. rewrite yields_walk_listing in Hitem.
  pose proof (no_breaks_listing _ _ Hwf) as Hall.
  assert (Hjoin : forall e, In e es ->
             has_char LF (fsencode (os_path_join top (fst e))) = false).
  { intros e He. apply join_no_break; [exact Htop | now apply Hall]. }
  destruct Hitem as [<-|Hitem].
  - split; [exact Htop|]. intros p Hp. cbn [item_paths] in Hp.
    apply in_map_iff in Hp as (file & <- & Hfile).
    apply nondirs_of_inv in Hfile. now apply (Hjoin _ Hfile).
  - apply in_flat_map in Hitem as (e & He & Hitem).
    apply sub_walk_inv in Hitem as (listing & _ & Hitem).
    apply (IH e He (os_path_join top (fst e))); [now apply Hjoin | | exact Hitem].
    now apply Hall.
Qed.

(** ** The lines of what the walker writes *)

Lemma lines_file_block (fs : filesystem) (p : pystr) (rest : string) :
  has_char LF (fsencode p) = false ->
  lines (file_block fs p ++ rest) = (file_lines fs p ++ lines rest)%list.
Proof.
  intros Hp.
  assert (E : file_block fs p ++ rest =
              "" ++ nl ++ ("--- FILE: " ++ fsencode p ++ " ---") ++ nl ++
              reader_result fs p ++ nl ++ "" ++ nl ++ str_mul "=" 80 ++ nl ++
              "" ++ nl ++ rest).
  { unfold file_block, file_header, separator. rewrite !append_assoc. reflexivity. }
  rewrite E. unfold file_lines.
  rewrite lines_cons by reflexivity.
  rewrite lines_cons by (rewrite !has_char_app, Hp; reflexivity).
  rewrite lines_app_nl.
  rewrite lines_cons by reflexivity.
  rewrite lines_cons by reflexivity.
  rewrite lines_cons by reflexivity.
  cbn [app]. rewrite <- app_assoc. reflexivity.
Qed.

Lemma lines_file_blocks (fs : filesystem) (paths : list pystr) (rest : string) :
  (forall p, In p paths -> has_char LF (fsencode p) = false) ->
  lines (cat (map (file_block fs) paths) ++ rest) =
  (flat_map (file_lines fs) paths ++ lines rest)%list.
Proof.
  induction paths as [|p paths IH]; intros H; [reflexivity|].
  cbn [map cat flat_map]. rewrite append_assoc, lines_file_block, IH.
  - now rewrite app_assoc.
  - intros q Hq. apply H. now right.
  - apply H. now left.
Qed.

Lemma lines_dir_block (fs : filesystem) (item : walk_item) (rest : string) :
  has_char LF (fsencode (root_of item)) = false ->
  (forall p, In p (item_paths item) -> has_char LF (fsencode p) = false) ->
  lines (dir_block fs item ++ rest) = (item_lines fs item ++ lines rest)%list.
Proof.
  destruct item as [[root dirs] files]. unfold root_of, item_lines. cbn [fst item_paths].
  intros Hroot Hpaths. unfold dir_block, dir_line.
  rewrite <- (map_map (os_path_join root) (file_block fs)).
  assert (E : forall blocks,
            (("Directory: " ++ fsencode root ++ nl) ++ blocks) ++ rest =
            ("Directory: " ++ fsencode root) ++ nl ++ blocks ++ rest).
  { intros blocks. now rewrite !append_assoc. }
  rewrite E. rewrite lines_cons by (rewrite has_char_app, Hroot; reflexivity).
  now rewrite lines_file_blocks.
Qed.

Lemma lines_walk (fs : filesystem) (items : list walk_item) :
  (forall item, In item items ->
     has_char LF (fsencode (root_of item)) = false
     /\ forall p, In p (item_paths item) -> has_char LF (fsencode p) = false) ->
  lines (cat (map (dir_block fs) items)) = flat_map (item_lines fs) items.
Proof.
  induction items as [|item items IH]; intros H; [reflexivity|].
  cbn [map cat flat_map]. destruct (H item) as [Hroot Hpaths]; [now left|].
  rewrite lines_dir_block by assumption. f_equal. apply IH.
  intros i Hi. apply H. now right.
Qed.

Lemma file_lines_no_dir_line (fs : filesystem) (f : pystr) (q : string) :
  ~ In ("Directory: " ++ q) (lines (reader_result fs f ++ nl)) ->
  ~ In ("Directory: " ++ q) (file_lines fs f).
Proof.
  intros Hcontent Hin. unfold file_lines in Hin.
  apply in_app_or in Hin as [[E|[E|Hin]]|[E|[E|[E|[]]]]];
    try discriminate E; contradiction.
Qed.

Lemma count_item_lines (fs : filesystem) (item : walk_item) (p : pystr) :
  has_surrogate (root_of item) = false ->
  has_surrogate p = false ->
  (forall f, In f (item_paths item) ->
     ~ In ("Directory: " ++ fsencode p) (lines (reader_result fs f ++ nl))) ->
  count_occ string_dec (item_lines fs item) ("Directory: " ++ fsencode p) =
  count_occ pystr_dec [root_of item] p.
Proof.
  intros Hroot Hp Hcontent. unfold item_lines.
  assert (Hrest : count_occ string_dec
                    (flat_map (file_lines fs) (item_paths item))
                    ("Directory: " ++ fsencode p) = 0).
  { apply count_occ_not_In. intros Hin.
    apply in_flat_map in Hin as (f & Hf & Hin).
    now apply (file_lines_no_dir_line fs f _ (Hcontent f Hf)). }
  destruct (pystr_dec (root_of item) p) as [->|Hne].
  - rewrite !count_occ_cons_eq by reflexivity. now rewrite Hrest.
  - rewrite !count_occ_cons_neq; [exact Hrest | exact Hne |].
    intros E. apply Hne. apply append_inv_head in E. now apply fsencode_inj.
Qed.

Lemma count_walk_lines (fs : filesystem) (items : list walk_item) (p : pystr) :
  (forall item, In item items -> has_surrogate (root_of item) = false) ->
  has_surrogate p = false ->
  (forall f, In f (flat_map item_paths items) ->
     ~ In ("Directory: " ++ fsencode p) (lines (reader_result fs f ++ nl))) ->
  count_occ string_dec (flat_map (item_lines fs) items) ("Directory: " ++ fsencode p) =
  count_occ pystr_dec (map root_of items) p.
Proof.
  intros Hclean Hp.
  induction items as [|item items IH]; intros H; [reflexivity|].
  cbn [flat_map map]. rewrite count_occ_app.
  change (root_of item :: map root_of items)
    with ([root_of item] ++ map root_of items)%list.
  rewrite count_occ_app, count_item_lines, IH; try reflexivity; try exact Hp.
  - intros i Hi. apply Hclean. now right.
  - intros f Hf. apply H. cbn [flat_map]. apply in_or_app. now right.
  - apply Hclean. now left.
  - intros f Hf. apply H. cbn [flat_map]. apply in_or_app. now left.
Qed.

(** ** Runs on filesystems that look alike *)

Lemma walker_script_ext (fs1 fs2 : filesystem) (g : list (walk_item + exn)) :
  (forall p, In p (flat_map item_paths (yields g)) ->
             reader_result fs1 p = reader_result fs2 p) ->
  flat_map (yield_script fs1) g = flat_map (yield_script fs2) g.
Proof.
  induction g as [|[[[root dirs] files]|e] g IH]; intros H; [reflexivity | |].
  - cbn [flat_map yields] in *. rewrite IH.
    + f_equal. unfold yield_script, item_script. f_equal.
      assert (Hfiles : forall file, In file files ->
                reader_result fs1 (os_path_join root file) =
                reader_result fs2 (os_path_join root file)).
      { intros file Hfile. apply H. apply in_or_app. left.
        unfold item_paths. now apply in_map. }
      clear H IH. induction files as [|f files IHf]; [reflexivity|].
      cbn [flat_map]. rewrite IHf by (intros x Hx; apply Hfiles; now right).
      f_equal. unfold file_script. rewrite (Hfiles f); [reflexivity | now left].
    + intros p Hp. apply H. apply in_or_app. now right.
  - cbn [flat_map yields] in *. now rewrite IH.
Qed.

Lemma scan_script_ext (fs1 fs2 : filesystem) (d : string) :
  os_path_exists fs1 (text d) = os_path_exists fs2 (text d) ->
  os_walk fs1 (text d) = os_walk fs2 (text d) ->
  (forall p, In p (root_reads fs1 d) -> reader_result fs1 p = reader_result fs2 p) ->
  scan_script fs1 d = scan_script fs2 d.
Proof.
  intros Hex Hwalk Hread. unfold scan_script, walker_script.
  unfold root_reads, walk_reads in Hread. rewrite <- Hex, <- Hwalk.
  destruct (os_path_exists fs1 (text d)); [|reflexivity].
  do 2 f_equal. now apply walker_script_ext.
Qed.

Lemma main_script_ext (fs1 fs2 : filesystem) :
  (forall d, In d directories ->
     os_path_exists fs1 (text d) = os_path_exists fs2 (text d)
     /\ os_walk fs1 (text d) = os_walk fs2 (text d)) ->
  (forall p, In p (flat_map (root_reads fs1) directories) ->
             reader_result fs1 p = reader_result fs2 p) ->
  main_script fs1 = main_script fs2.
Proof.
  intros Hroots Hread. unfold main_script. do 3 f_equal.
  induction directories as [|d ds IH]; [reflexivity|].
  cbn [flat_map] in *. rewrite IH.
  - f_equal. destruct (Hroots d) as [Hex Hwalk]; [now left|].
    apply scan_script_ext; try assumption.
    intros p Hp. apply Hread. apply in_or_app. now left.
  - intros x Hx. apply Hroots. now right.
  - intros p Hp. apply Hread. apply in_or_app. now right.
Qed.

Lemma main_ext (fs1 fs2 : filesystem) (st : state) :
  main_script fs1 = main_script fs2 ->
  open_write fs1 output_file_path = open_write fs2 output_file_path ->
  main fs1 st = main fs2 st.
Proof. intros Hs Hw. now rewrite !main_run, Hs, Hw. Qed.

(** What goes wrong in a walk does not depend on what the reads give. *)
Lemma outcome_file_script (fs : filesystem) (root file : pystr) (rest : list event) :
  outcome_of (file_script fs root file ++ rest)%list =
  if has_surrogate (os_path_join root file)
  then Raise (unicode_encode_error
                (text (nl ++ "--- FILE: ") ++ os_path_join root file ++
                 text (" ---" ++ nl))%list)
  else outcome_of rest.
Proof.
  unfold file_script. cbn [app outcome_of].
  rewrite !has_surrogate_app, !has_surrogate_text. cbn [orb].
  now rewrite orb_false_r.
Qed.

Lemma outcome_walker_script (fs1 fs2 : filesystem) (g : list (walk_item + exn)) :
  outcome_of (flat_map (yield_script fs1) g) = outcome_of (flat_map (yield_script fs2) g).
Proof.
  induction g as [|[[[root dirs] files]|e] g IH]; [reflexivity | | reflexivity].
  cbn [flat_map yield_script item_script app outcome_of].
  destruct (has_surrogate _); [reflexivity|].
  induction files as [|f files IHf]; [exact IH|].
  cbn [flat_map]. rewrite <- !app_assoc, !outcome_file_script.
  destruct (has_surrogate (os_path_join root f)); [reflexivity | exact IHf].
Qed.

Lemma outcome_scan_reads (fs : filesystem) (reads : pystr -> outcome string) (d : string) :
  outcome_of (scan_script (with_reads fs reads) d) = outcome_of (scan_script fs d).
Proof.
  rewrite !outcome_of_scan.
  change (os_path_exists (with_reads fs reads) (text d)) with (os_path_exists fs (text d)).
  destruct (os_path_exists fs (text d)); [|reflexivity].
  unfold walker_script.
  change (os_walk (with_reads fs reads) (text d)) with (os_walk fs (text d)).
  apply outcome_walker_script.
Qed.

Lemma outcome_main_script (fs : filesystem) (reads : pystr -> outcome string) :
  outcome_of (main_script (with_reads fs reads)) = outcome_of (main_script fs).
Proof.
  unfold main_script. rewrite !outcome_of_app. cbn [outcome_of].
  rewrite !has_surrogate_text.
  assert (E : outcome_of (flat_map (scan_script (with_reads fs reads)) directories) =
              outcome_of (flat_map (scan_script fs) directories)).
  { induction directories as [|d ds IH]; [reflexivity|].
    cbn [flat_map]. now rewrite !outcome_of_app, outcome_scan_reads, IH. }
  now rewrite E.
Qed.

Lemma is_dir_prune (n : node) : is_dir (prune n) = is_dir n.
Proof. destruct n as [|link [es|]|e]; reflexivity. Qed.

Lemma walk_node_prune (n : node) :
  forall top, walk_node top (prune n) = walk_node top n.
Proof.
  induction n as [|e|link|link es IH] using node_ind; intros top; try reflexivity.
  cbn [prune]. rewrite !walk_node_listing.
  set (g := fun e : pystr * node =>
              (fst e, match snd e with
                      | Dir true _ => Dir true None
                      | _ => prune (snd e)
                      end)).
  assert (Hdir : forall e, is_dir (snd (g e)) = is_dir (snd e)).
  { intros [name [|[|] listing|x]]; try reflexivity. cbn [g fst snd].
    apply is_dir_prune. }
  assert (Hd : dirs_of (map g es) = dirs_of es).
  { unfold dirs_of. clear IH.
    induction es as [|e es IHes]; [reflexivity|]. cbn [map filter].
    rewrite Hdir. destruct (is_dir (snd e)); cbn [map]; rewrite IHes; reflexivity. }
  assert (Hn : nondirs_of (map g es) = nondirs_of es).
  { unfold nondirs_of. clear IH Hd.
    induction es as [|e es IHes]; [reflexivity|]. cbn [map filter].
    rewrite Hdir. destruct (negb (is_dir (snd e))); cbn [map]; rewrite IHes; reflexivity. }
  assert (Hs : flat_map (sub_walk top) (map g es) = flat_map (sub_walk top) es).
  { clear Hd Hn. induction es as [|e es IHes]; [reflexivity|]. cbn [map flat_map].
    inversion IH as [|e' es' He Hes]; subst. rewrite (IHes Hes). f_equal.
    destruct e as [name [|[|] listing|x]]; try reflexivity.
    unfold sub_walk, g. cbn [fst snd] in *. rewrite <- (He (os_path_join top name)).
    destruct listing; reflexivity. }
  fold g. now rewrite Hd, Hn, Hs.
Qed.

(** ** What a run comes to *)

Lemma text_app (a b : string) : text (a ++ b) = (text a ++ text b)%list.
Proof. induction a as [|c a IH]; simpl; [reflexivity | now rewrite IH]. Qed.

Lemma walker_run (fs : filesystem) (directory : pystr) (st : state) :
  list_files_recursive fs directory st =
  (outcome_of (walker_script fs directory),
   mkState (out st ++ text_of (walker_script fs directory)) (stdout st)
           (opened st ++ reads_of (walker_script fs directory))).
Proof. now rewrite runs_walker, run_script_spec. Qed.

Lemma scan_run (fs : filesystem) (d : string) (st : state) :
  scan_root fs d st =
  (outcome_of (scan_script fs d),
   mkState (out st ++ text_of (scan_script fs d)) (stdout st)
           (opened st ++ reads_of (scan_script fs d))).
Proof. now rewrite runs_scan_root, run_script_spec. Qed.

(** A walker that returns normally has gone through a sound walk and has
    written and read everything. *)
Lemma walker_normal (fs : filesystem) (directory : pystr) (st : state) :
  fst (list_files_recursive fs directory st) = Return tt ->
  walk_sound fs directory = true
  /\ text_of (walker_script fs directory) = walk_text fs directory
  /\ reads_of (walker_script fs directory) = walk_reads fs directory.
Proof.
  rewrite walker_run. cbn [fst]. intros H. apply outcome_ok in H.
  destruct (ok_text _ H) as [Ht Hr].
  rewrite Ht, Hr, full_text_walker, all_reads_walker, <- ok_walker. now repeat split.
Qed.

(** A run of [main] that returns normally has written the whole report. *)
Lemma main_normal (fs : filesystem) (st st' : state) :
  main fs st = (Return tt, st') ->
  ok (main_script fs) = true
  /\ out st' = report fs
  /\ stdout st' = stdout st ++ "Files content has been saved to files_content.txt" ++ nl
  /\ opened st' = (opened st ++ flat_map (root_reads fs) directories)%list.
Proof.
  rewrite main_run. destruct (open_write fs output_file_path); [discriminate|].
  destruct (outcome_of (main_script fs)) as [[]|e] eqn:E; [|discriminate].
  intros H. apply (f_equal snd) in H. cbn [snd] in H. rewrite <- H.
  cbn [out stdout opened].
  apply outcome_ok in E. destruct (ok_text _ E) as [Ht Hr].
  now rewrite Ht, Hr, full_text_main, all_reads_main.
Qed.


(** * Properties of the report *)

(** C1: [read_file_content] never raises.  When opening and decoding
    succeed it returns the text of the file; when they raise it returns
    ["Error reading file: "] followed by the message of the exception.  So
    no result of a read changes how a run ends: the walker and [main]
    return, or raise, the same whatever the reads give; and the walker
    returns normally exactly when [os.walk] raises nothing and every path
    it has to write can be encoded. *)
Theorem read_file_content_never_raises
        (fs : filesystem) (file_path : pystr) (st : state) :
  fst (read_file_content fs file_path st) =
    Return (match open_read fs file_path with
            | Return content => content
            | Raise e => "Error reading file: " ++ str e
            end)
  /\ (forall reads directory st',
        fst (list_files_recursive (with_reads fs reads) directory st') =
        fst (list_files_recursive fs directory st'))
  /\ (forall reads st', fst (main (with_reads fs reads) st') = fst (main fs st'))
  /\ (forall directory st',
        fst (list_files_recursive fs directory st') = Return tt <->
        walk_sound fs directory = true).
Proof.
  split; [|split; [|split]].
  - rewrite read_file_content_run. reflexivity.
  - intros reads directory st'. rewrite !walker_run. cbn [fst].
    unfold walker_script.
    change (os_walk (with_reads fs reads) directory) with (os_walk fs directory).
    apply outcome_walker_script.
  - intros reads st'. rewrite !main_run.
    change (open_write (with_reads fs reads) output_file_path)
      with (open_write fs output_file_path).
    destruct (open_write fs output_file_path); [reflexivity|].
    rewrite outcome_main_script.
    now destruct (outcome_of (main_script fs)) as [[]|e].
  - intros directory st'. rewrite walker_run. cbn [fst].
    rewrite outcome_ok. now rewrite ok_walker.
Qed.





(** C4: a root holding the single file [a.txt] with content ["hello"] and
    no subdirectory: the walker writes exactly the [Directory:] line of the
    root and the block of [<root>/a.txt].  ([os.path.join] puts the ["/"]
    between root and name when the root is not empty and does not end with
    one, as is the case of the configured roots.) *)
Theorem single_file_root
        (fs : filesystem) (root : string) (link : bool) (st : state) :
  lookup fs (text root) = Some (Dir link (Some [(text "a.txt", File)])) ->
  open_read fs (text (root ++ "/a.txt")) = Return "hello" ->
  root <> "" ->
  endswith_sep (text root) = false ->
  fst (list_files_recursive fs (text root) st) = Return tt
  /\ out (snd (list_files_recursive fs (text root) st)) =
     out st ++
     "Directory: " ++ root ++ nl ++
     nl ++ "--- FILE: " ++ root ++ "/a.txt ---" ++ nl ++
     "hello" ++ nl ++
     nl ++ "================================================================================" ++ nl ++
     nl.
Proof.
  intros Hroot Hread Hne Hsep.
  assert (Hjoin : os_path_join (text root) (text "a.txt") = text (root ++ "/a.txt")).
  { unfold os_path_join. cbn [startswith_sep text is_sep Ascii.eqb]. rewrite Hsep.
    destruct root; [contradiction|]. cbn [text is_empty orb].
    change "/a.txt" with ("/" ++ "a.txt"). now rewrite !text_app. }
  assert (Hwalk : os_walk fs (text root) =
                  [inl (text root, [], [text "a.txt"])]).
  { unfold os_walk. rewrite Hroot. reflexivity. }
  assert (Hsound : walk_sound fs (text root) = true).
  { unfold walk_sound. rewrite Hwalk. cbn [forallb item_sound].
    now rewrite Hjoin, !has_surrogate_text. }
  rewrite walker_run. cbn [fst snd out]. rewrite <- ok_walker in Hsound.
  split; [now apply outcome_ok|].
  destruct (ok_text _ Hsound) as [-> _]. rewrite full_text_walker.
  unfold walk_text. rewrite Hwalk. cbn [yields map cat dir_block].
  rewrite Hjoin. unfold file_block, reader_result, file_header, separator, dir_line.
  rewrite Hread, !fsencode_text. rewrite !append_nil_r, !append_assoc. reflexivity.
Qed.

Lemma single_file_root_witness :
  out (snd (list_files_recursive fs_hello (text components) fresh)) =
    "Directory: " ++ components ++ nl ++
    nl ++ "--- FILE: " ++ components ++ "/a.txt ---" ++ nl ++
    "hello" ++ nl ++
    nl ++ "================================================================================" ++ nl ++
    nl.
Proof.
  apply (single_file_root fs_hello components false fresh).
  - reflexivity.
  - reflexivity.
  - discriminate.
  - reflexivity.
Defined.

(** C5: when [main] completes normally, the output file begins with the
    title and its underline followed by a blank line, and ends with the
    line [End of content listing], whatever the roots hold. *)
Theorem report_begins_and_ends (fs : filesystem) (st st' : state) :
  main fs st = (Return tt, st') ->
  exists middle,
    out st' =
    "Files Content" ++ nl ++ "=============" ++ nl ++ nl ++
    middle ++
    "End of content listing" ++ nl.
Proof.
  intros Hmain. destruct (main_normal _ _ _ Hmain) as (_ & -> & _).
  unfold report.
  exists (cat (map (fun d => banner d ++ root_body fs d) directories)).
  reflexivity.
Qed.

Lemma report_begins_and_ends_witness :
  exists middle,
    out (snd (main fs_missing fresh)) =
    "Files Content" ++ nl ++ "=============" ++ nl ++ nl ++
    middle ++
    "End of content listing" ++ nl.
Proof.
  apply (report_begins_and_ends fs_missing fresh (snd (main fs_missing fresh))).
  reflexivity.
Defined.

(** C7: the output file of a run is a function of what the two configured
    roots hold: two runs that find the same nodes at the roots, read the
    same from every file path the walks list, and can both open the output
    file, leave the same text in it, whatever the file held before. *)
Theorem report_deterministic (fs1 fs2 : filesystem) (st1 st2 : state) :
  (forall d, In d directories -> lookup fs1 (text d) = lookup fs2 (text d)) ->
  (forall p, In p (flat_map (root_reads fs1) directories) ->
             open_read fs1 p = open_read fs2 p) ->
  open_write fs1 output_file_path = None ->
  open_write fs2 output_file_path = None ->
  fst (main fs1 st1) = fst (main fs2 st2)
  /\ out (snd (main fs1 st1)) = out (snd (main fs2 st2)).
Proof.
  intros Hlook Hread H1 H2.
  assert (Hs : main_script fs1 = main_script fs2).
  { apply main_script_ext.
    - intros d Hd. unfold os_path_exists, os_walk. now rewrite (Hlook d Hd).
    - intros p Hp. unfold reader_result. now rewrite (Hread p Hp). }
  rewrite !main_run, H1, H2, Hs.
  now destruct (outcome_of (main_script fs2)) as [[]|e].
Qed.

Lemma report_deterministic_witness :
  out (snd (main fs_hello fresh)) =
  out (snd (main fs_hello (snd (main fs_hello fresh)))).
Proof.
  apply (report_deterministic fs_hello fs_hello).
  - intros d _. reflexivity.
  - intros p _. reflexivity.
  - reflexivity.
  - reflexivity.
Defined.



(** C9: the check on a root is [os.path.exists]: a root that exists and is
    not a directory passes it and goes to the walker, for which [os.walk]
    yields nothing; the walker writes nothing, so the part of that root is
    its banner alone, without [Directory:] line, file block or
    [Directory not found:] line. *)
Theorem root_not_a_directory (fs : filesystem) (d : string) (st : state) :
  lookup fs (text d) = Some File ->
  os_path_exists fs (text d) = true
  /\ scan_root fs d st =
     (write (text ("SCANNING: " ++ d ++ nl)) ;;
      write (text (str_mul "=" 80 ++ nl ++ nl)) ;;
      list_files_recursive fs (text d)) st
  /\ os_walk fs (text d) = []
  /\ list_files_recursive fs (text d) st = (Return tt, st)
  /\ written (scan_root fs d) =
     "SCANNING: " ++ d ++ nl ++
     "================================================================================" ++ nl ++ nl.
Proof.
  intros Hfile.
  assert (Hex : os_path_exists fs (text d) = true)
    by (unfold os_path_exists; now rewrite Hfile).
  assert (Hwalk : os_walk fs (text d) = []) by (unfold os_walk; now rewrite Hfile).
  split; [exact Hex|]. split; [|split; [exact Hwalk|split]].
  - unfold scan_root. now rewrite Hex.
  - unfold list_files_recursive. rewrite Hwalk. reflexivity.
  - rewrite (written_runs _ _ (runs_scan_root fs d)), text_of_scan.
    unfold walker_script. rewrite Hex, Hwalk. cbn [flat_map text_of].
    now rewrite !append_nil_r.
Qed.

Lemma root_not_a_directory_witness :
  written (scan_root fs_plain_file components) =
    "SCANNING: " ++ components ++ nl ++
    "================================================================================" ++ nl ++ nl.
Proof.
  apply (root_not_a_directory fs_plain_file components fresh).
  reflexivity.
Defined.

(** C10: for a root that is a directory with an empty listing the walker
    writes the single line [Directory: <root>] and nothing else, and reads
    nothing. *)
Theorem empty_root_directory
        (fs : filesystem) (root : string) (link : bool) (st : state) :
  lookup fs (text root) = Some (Dir link (Some [])) ->
  list_files_recursive fs (text root) st =
  (Return tt, mkState (out st ++ "Directory: " ++ root ++ nl) (stdout st) (opened st)).
Proof.
  intros Hroot. rewrite walker_run. unfold walker_script, os_walk. rewrite Hroot.
  cbn [walk_node dirs_of nondirs_of filter map flat_map yield_script item_script app].
  cbn [outcome_of text_of reads_of].
  rewrite !has_surrogate_app, !has_surrogate_text. cbn [orb].
  rewrite !fsencode_app, !fsencode_text, app_nil_r, append_nil_r.
  rewrite ?append_assoc. reflexivity.
Qed.

Lemma empty_root_directory_witness :
  list_files_recursive fs_plain_file (text pages) fresh =
  (Return tt, mkState ("Directory: " ++ pages ++ nl) "" []).
Proof.
  apply (empty_root_directory fs_plain_file pages false fresh).
  reflexivity.
Defined.

(** C6, as the code has it.  When the walker returns normally on a tree
    whose names are not empty, hold no ["/"] and are pairwise different in
    each listing: [os.walk] raises nothing and visits every directory it
    can enter (reached through directories that are not symbolic links
    and whose listings can be read) exactly once, and no other; every
    non-directory entry of the listing of a visited directory is read
    exactly once.  When moreover neither the path of the root nor a name
    holds a line break, the lines written are, for each visit in turn, one
    [Directory: <path>] line and the lines of the file blocks, and the
    line of an entered directory occurs exactly once provided no text
    handed back by the File Reader holds it. *)
Theorem every_entered_directory_once
        (fs : filesystem) (top : pystr) (n : node) (st : state) :
  lookup fs top = Some n ->
  names_ok n = true ->
  fst (list_files_recursive fs top st) = Return tt ->
  os_walk fs top = map inl (yields (os_walk fs top))
  /\ (forall p, entered top n p ->
        count_occ pystr_dec (map root_of (yields (os_walk fs top))) p = 1)
  /\ (forall p, In p (map root_of (yields (os_walk fs top))) -> entered top n p)
  /\ (forall p, listed top n p ->
        count_occ pystr_dec (opened (snd (list_files_recursive fs top fresh))) p = 1)
  /\ (no_breaks n = true ->
      has_char LF (fsencode top) = false ->
      lines (written (list_files_recursive fs top)) =
        flat_map (item_lines fs) (yields (os_walk fs top))
      /\ forall p,
           entered top n p ->
           (forall f, In f (walk_reads fs top) ->
              ~ In ("Directory: " ++ fsencode p) (lines (reader_result fs f ++ nl))) ->
           count_occ string_dec (lines (written (list_files_recursive fs top)))
                     ("Directory: " ++ fsencode p) = 1).
Proof.
  intros Hlook Hwf Hnormal.
  destruct (walker_normal _ _ _ Hnormal) as (Hsound & Ht & Hr).
  assert (Hwalk : os_walk fs top = walk_node top n) by (unfold os_walk; now rewrite Hlook).
  destruct (walk_NoDup n top Hwf) as [Hroots Hpaths].
  assert (Hvisit : forall p, entered top n p ->
            count_occ pystr_dec (map root_of (yields (os_walk fs top))) p = 1).
  { intros p Hp. rewrite Hwalk.
    apply NoDup_count_occ'; [exact Hroots | now apply entered_visited]. }
  assert (Hclean : forall item, In item (yields (os_walk fs top)) ->
            has_surrogate (root_of item) = false).
  { intros item Hitem.
    assert (Hin : In (inl item) (os_walk fs top)).
    { rewrite (walk_sound_no_raise _ _ Hsound). now apply in_map. }
    unfold walk_sound in Hsound. rewrite forallb_forall in Hsound.
    specialize (Hsound _ Hin). destruct item as [[root dirs] files].
    cbn [item_sound] in Hsound. apply andb_true_iff in Hsound as [Hroot _].
    now apply negb_true_iff in Hroot. }
  split; [now apply walk_sound_no_raise|].
  split; [exact Hvisit|]. split; [|split].
  - intros p Hp. rewrite Hwalk in Hp. now apply visited_entered.
  - intros p Hp. rewrite walker_run. cbn [snd opened fresh app].
    rewrite Hr. unfold walk_reads. rewrite Hwalk.
    apply NoDup_count_occ'; [exact Hpaths | now apply listed_read].
  - intros Hbreaks Htop.
    assert (Hlines : lines (written (list_files_recursive fs top)) =
                     flat_map (item_lines fs) (yields (os_walk fs top))).
    { rewrite (written_runs _ _ (runs_walker fs top)), Ht. unfold walk_text.
      apply lines_walk. rewrite Hwalk. intros item Hitem.
      now apply (walk_no_break n top). }
    split; [exact Hlines|]. intros p Hp Hcontent. rewrite Hlines.
    unfold walk_reads in Hcontent. rewrite count_walk_lines.
    + now apply Hvisit.
    + exact Hclean.
    + apply entered_visited in Hp. rewrite <- Hwalk in Hp.
      apply in_map_iff in Hp as (item & <- & Hitem). now apply Hclean.
    + exact Hcontent.
Qed.

Lemma every_entered_directory_once_witness :
  fst (list_files_recursive fs_tree (text components) fresh) = Return tt
  /\ os_walk fs_tree (text components) =
     map inl (yields (os_walk fs_tree (text components))).
Proof.
  split; [reflexivity|].
  apply (every_entered_directory_once fs_tree (text components) tree_sample fresh).
  - reflexivity.
  - reflexivity.
  - reflexivity.
Defined.

(** C6, as the specification words it, fails in four ways: a directory of
    the subtree whose listing is refused is never visited and gets no
    [Directory:] line; a file whose text is the [Directory:] line of a
    visited directory makes that line occur twice in the report; a file
    name that cannot be encoded stops the walker at its header, so that a
    directory after it gets no line; and the [Directory:] line of a
    directory whose name holds a line break is no line of the report. *)
Lemma every_directory_once_fails :
  ~ every_directory_once fs_locked (text components)
  /\ ~ every_directory_once fs_echo (text components)
  /\ ~ every_directory_once fs_odd_name (text components)
  /\ ~ every_directory_once fs_break (text components).
Proof.
  split; [|split; [|split]]; intros H.
  - destruct (H (Dir false (Some [(text "locked", Dir false None)]))
                (text (components ++ "/locked")) eq_refl) as [Hvisit _].
    + apply subdirectory_below with (name := text "locked") (listing := None).
      * now left.
      * apply subdirectory_top.
    + vm_compute in Hvisit. discriminate Hvisit.
  - destruct (H (Dir false (Some [(text "notes.txt", File)]))
                (text components) eq_refl) as [_ Hline].
    + apply subdirectory_top.
    + vm_compute in Hline. discriminate Hline.
  - destruct (H (Dir false (Some
                   [ (text "a.txt", File);
                     (odd_name, File);
                     (text "b.txt", File);
                     (text "ui", Dir false (Some [])) ]))
                (text (components ++ "/ui")) eq_refl) as [_ Hline].
    + apply subdirectory_below with (name := text "ui") (listing := Some []).
      * right. right. right. now left.
      * apply subdirectory_top.
    + vm_compute in Hline. discriminate Hline.
  - destruct (H (Dir false (Some [(broken_name, Dir false (Some []))]))
                (text (components ++ "/" ++ "a" ++ nl ++ "b")) eq_refl) as [_ Hline].
    + apply subdirectory_below with (name := broken_name) (listing := Some []).
      * now left.
      * apply subdirectory_top.
    + vm_compute in Hline. discriminate Hline.
Qed.

(** * Further properties of the program *)

(** X1: what a run of [main] comes to.  When the output file cannot be
    opened [main] raises that exception and nothing else happens: nothing
    is printed, no file is read.  When it can, a run that returns normally
    has printed the one line naming the output file, has written the whole
    report, and has opened for reading the files of the walks of the
    existing roots, in order, and none for a missing root; a run that
    raises has printed nothing. *)
Theorem main_outcome (fs : filesystem) (st : state) :
  match open_write fs output_file_path with
  | Some e => main fs st = (Raise e, st)
  | None =>
      (fst (main fs st) = Return tt ->
       stdout (snd (main fs st)) =
         stdout st ++ "Files content has been saved to files_content.txt" ++ nl
       /\ out (snd (main fs st)) = report fs
       /\ opened (snd (main fs st)) =
          (opened st ++
           flat_map (fun d => if os_path_exists fs (text d)
                              then flat_map item_paths (yields (os_walk fs (text d)))
                              else [])
                    directories)%list)
      /\ (forall e, fst (main fs st) = Raise e ->
                    stdout (snd (main fs st)) = stdout st)
  end.
Proof.
  destruct (open_write fs output_file_path) as [e|] eqn:Hopen.
  - now rewrite main_run, Hopen.
  - split.
    + intros Hnormal.
      destruct (main_normal fs st (snd (main fs st))) as (_ & Hout & Hstd & Hop).
      * rewrite <- Hnormal. now destruct (main fs st).
      * now repeat split.
    + intros e He. rewrite main_run, Hopen in *.
      destruct (outcome_of (main_script fs)) as [[]|x]; [discriminate | reflexivity].
Qed.

(** X2: a file that cannot be read and a file whose text is the error
    message look the same in everything a run does: the report cannot tell
    a failed read from a file that says so. *)
Theorem error_text_indistinguishable
        (fs : filesystem) (p : pystr) (m : string) (st : state) :
  main (with_read fs p (Raise (Exn m))) st =
  main (with_read fs p (Return ("Error reading file: " ++ m))) st.
Proof.
  apply main_ext; [|reflexivity].
  apply main_script_ext.
  - intros d _. now split.
  - intros q _. unfold reader_result, with_read. cbn [open_read].
    destruct (pystr_eqb q p); reflexivity.
Qed.

(** X3: the walker opens nothing but the non-directory entries of the
    listings of the directories it enters: never an entry that is a
    directory, never anything behind a symbolic link to a directory or in a
    directory whose listing is refused. *)
Theorem walker_reads_only_listed
        (fs : filesystem) (top : pystr) (n : node) (st : state) :
  lookup fs top = Some n ->
  forall p, In p (opened (snd (list_files_recursive fs top st))) ->
            In p (opened st) \/ listed top n p.
Proof.
  intros Hlook p Hp. rewrite walker_run in Hp. cbn [snd opened] in Hp.
  apply in_app_or in Hp as [Hp|Hp]; [now left | right].
  apply reads_of_incl in Hp. rewrite all_reads_walker in Hp.
  unfold walk_reads, os_walk in Hp. rewrite Hlook in Hp. now apply read_listed.
Qed.

Lemma walker_reads_only_listed_witness :
  opened (snd (list_files_recursive fs_tree (text components) fresh)) =
    [ text (components ++ "/Chart.tsx"); text (components ++ "/ui/Button.tsx") ]
  /\ (forall p, In p (opened (snd (list_files_recursive fs_tree (text components) fresh))) ->
                In p (opened fresh) \/ listed (text components) tree_sample p).
Proof.
  split; [reflexivity|].
  apply (walker_reads_only_listed fs_tree (text components)).
  reflexivity.
Defined.

(** X7: symbolic links to directories are not followed: a run does the
    same, in every respect, on the filesystem in which nothing lies behind
    the links found in the listings. *)
Theorem links_not_followed (fs : filesystem) (st : state) :
  main (pruned fs) st = main fs st.
Proof.
  apply main_ext; [|reflexivity].
  apply main_script_ext.
  - intros d _. unfold os_path_exists, os_walk, pruned. cbn [lookup].
    destruct (lookup fs (text d)) as [n|]; [|now split].
    cbn [option_map]. split; [reflexivity | apply walk_node_prune].
  - intros q _. reflexivity.
Qed.

(** X8: a root that exists and is a directory whose listing is refused is
    passed over in silence: its part of the report is its banner alone,
    nothing is read, nothing is raised, and no [Directory not found:] line
    tells of it. *)
Theorem unlistable_root_silent
        (fs : filesystem) (d : string) (link : bool) (st : state) :
  lookup fs (text d) = Some (Dir link None) ->
  fst (scan_root fs d st) = Return tt
  /\ opened (snd (scan_root fs d st)) = opened st
  /\ written (scan_root fs d) =
     "SCANNING: " ++ d ++ nl ++
     "================================================================================" ++ nl ++ nl.
Proof.
  intros Hlook.
  assert (Hscript : scan_script fs d =
                    [ W (text ("SCANNING: " ++ d ++ nl));
                      W (text (str_mul "=" 80 ++ nl ++ nl)) ]).
  { unfold scan_script, os_path_exists, walker_script, os_walk. now rewrite Hlook. }
  rewrite (written_runs _ _ (runs_scan_root fs d)), scan_run, Hscript.
  cbn [fst snd opened outcome_of text_of reads_of].
  rewrite !has_surrogate_text, !fsencode_text, app_nil_r, append_nil_r.
  repeat split. now rewrite !append_assoc.
Qed.

Lemma unlistable_root_silent_witness :
  written (scan_root fs_closed_root components) =
    "SCANNING: " ++ components ++ nl ++
    "================================================================================" ++ nl ++ nl.
Proof.
  apply (unlistable_root_silent fs_closed_root components false fresh).
  reflexivity.
Defined.

(** X4: when the walker returns normally on a directory, what it writes is
    the [Directory:] line, then the blocks of the files of the listing,
    then, for each subdirectory of the listing that is not a symbolic
    link, in listing order, exactly what the walker writes when run on
    that subdirectory; so the files of a directory come before everything
    of its subdirectories, whatever the order of the listing. *)
Theorem walker_composes
        (fs : filesystem) (top : pystr) (link : bool) (es : list (pystr * node))
        (st : state) :
  lookup fs top = Some (Dir link (Some es)) ->
  (forall name listing,
     In (name, Dir false listing) es ->
     lookup fs (os_path_join top name) = Some (Dir false listing)) ->
  fst (list_files_recursive fs top st) = Return tt ->
  written (list_files_recursive fs top) =
    ("Directory: " ++ fsencode top ++ nl) ++
    cat (map (fun file => file_block fs (os_path_join top file)) (nondirs_of es)) ++
    cat (map (fun e =>
                match snd e with
                | Dir false _ =>
                    written (list_files_recursive fs (os_path_join top (fst e)))
                | _ => ""
                end) es).
Proof.
  intros Hlook Hsub Hnormal.
  destruct (walker_normal _ _ _ Hnormal) as (Hsound & Ht & _).
  assert (Hwalk : os_walk fs top =
                  inl (top, dirs_of es, nondirs_of es) :: flat_map (sub_walk top) es).
  { unfold os_walk. now rewrite Hlook. }
  rewrite (written_runs _ _ (runs_walker fs top)), Ht.
  unfold walk_text. rewrite Hwalk. cbn [yields map cat].
  rewrite yields_flat_map, cat_map_flat_map.
  unfold dir_block at 1, dir_line. rewrite append_assoc.
  assert (E : map (fun e => cat (map (dir_block fs) (yields (sub_walk top e)))) es =
              map (fun e => match snd e with
                            | Dir false _ =>
                                written (list_files_recursive fs (os_path_join top (fst e)))
                            | _ => ""
                            end) es).
  { apply map_ext_in. intros [name child] He. cbn [fst snd]. unfold sub_walk.
    cbn [fst snd]. destruct child as [|[|] listing|x]; try reflexivity.
    assert (Hchild : os_walk fs (os_path_join top name) =
                     walk_node (os_path_join top name) (Dir false listing)).
    { unfold os_walk. now rewrite (Hsub name listing He). }
    assert (Hok : walk_sound fs (os_path_join top name) = true).
    { unfold walk_sound in *. rewrite Hchild. rewrite forallb_forall in *.
      intros y Hy. apply Hsound. rewrite Hwalk. right.
      apply in_flat_map. exists (name, Dir false listing). now split. }
    rewrite (written_runs _ _ (runs_walker fs (os_path_join top name))).
    rewrite <- ok_walker in Hok. destruct (ok_text _ Hok) as [-> _].
    rewrite full_text_walker. unfold walk_text. now rewrite Hchild. }
  rewrite E. reflexivity.
Qed.

Lemma walker_composes_witness :
  fst (list_files_recursive fs_nested (text components) fresh) = Return tt
  /\ written (list_files_recursive fs_nested (text components)) =
     ("Directory: " ++ fsencode (text components) ++ nl) ++
     cat (map (fun file => file_block fs_nested (os_path_join (text components) file))
              (nondirs_of
                 [ (text "ui", Dir false (Some [(text "Button.tsx", File)]));
                   (text "Chart.tsx", File);
                   (text "shared", Dir true (Some [(text "x.ts", File)])) ])) ++
     cat (map (fun e =>
                 match snd e with
                 | Dir false _ =>
                     written (list_files_recursive fs_nested
                                (os_path_join (text components) (fst e)))
                 | _ => ""
                 end)
              [ (text "ui", Dir false (Some [(text "Button.tsx", File)]));
                (text "Chart.tsx", File);
                (text "shared", Dir true (Some [(text "x.ts", File)])) ]).
Proof.
  split; [reflexivity|].
  apply (walker_composes fs_nested (text components) false _ fresh).
  - reflexivity.
  - intros name listing [E|[E|[E|[]]]]; inversion E; reflexivity.
  - reflexivity.
Defined.

(** X5: the walker and the scan of a root only append to the output file
    and leave the console alone, whether they return or raise: the text
    that was there stays in front, and neither what follows it nor the way
    the statement ends depends on the state it started from. *)
Theorem scan_only_appends (fs : filesystem) (p : pystr) (d : string) (st : state) :
  (out (snd (list_files_recursive fs p st)) = out st ++ written (list_files_recursive fs p)
   /\ stdout (snd (list_files_recursive fs p st)) = stdout st
   /\ fst (list_files_recursive fs p st) = fst (list_files_recursive fs p fresh))
  /\ (out (snd (scan_root fs d st)) = out st ++ written (scan_root fs d)
      /\ stdout (snd (scan_root fs d st)) = stdout st
      /\ fst (scan_root fs d st) = fst (scan_root fs d fresh)).
Proof.
  rewrite (written_runs _ _ (runs_walker fs p)).
  rewrite (written_runs _ _ (runs_scan_root fs d)).
  rewrite !walker_run, !scan_run. cbn [fst snd out stdout].
  repeat split.
Qed.

(** X6: in a tree whose names are not empty, hold no ["/"] and are pairwise
    different in each listing, the path of every directory the walk yields
    and of every file the walker opens starts with the path of the root
    the walk was given. *)
Theorem walk_stays_under_root (fs : filesystem) (top : pystr) (n : node) :
  lookup fs top = Some n ->
  names_ok n = true ->
  (forall r, In r (map root_of (yields (os_walk fs top))) ->
             exists rest, r = (top ++ rest)%list)
  /\ (forall p st, In p (opened (snd (list_files_recursive fs top st))) ->
                   In p (opened st) \/ exists rest, p = (top ++ rest)%list).
Proof.
  intros Hlook Hwf.
  assert (Hwalk : os_walk fs top = walk_node top n) by (unfold os_walk; now rewrite Hlook).
  assert (Hreads : forall p st, In p (opened (snd (list_files_recursive fs top st))) ->
             In p (opened st) \/ In p (flat_map item_paths (yields (walk_node top n)))).
  { intros p st Hp. rewrite walker_run in Hp. cbn [snd opened] in Hp.
    apply in_app_or in Hp as [Hp|Hp]; [now left | right].
    apply reads_of_incl in Hp. rewrite all_reads_walker in Hp.
    unfold walk_reads in Hp. now rewrite Hwalk in Hp. }
  rewrite Hwalk.
  destruct n as [|link [es|]|e];
    try (split; [intros r [] | intros p st Hp; destruct (Hreads p st Hp) as [H|[]]; now left]).
  destruct (names_ok_listing _ _ Hwf) as [_ Hall].
  assert (Hthrough : forall e, In e es ->
             (forall r, In r (map root_of (yields (sub_walk top e))) ->
                        through top r (fst e))
             /\ (forall p, In p (flat_map item_paths (yields (sub_walk top e))) ->
                           through top p (fst e))).
  { intros e He. destruct (Hall e He). now apply sub_walk_through. }
  split.
  - intros r Hr. rewrite yields_walk_listing in Hr.
    destruct Hr as [<-|Hr]; [exists []; now rewrite app_nil_r|].
    rewrite map_flat_map in Hr. apply in_flat_map in Hr as (e & He & Hr).
    apply (through_extends top r (fst e)). now apply (proj1 (Hthrough e He)).
  - intros p st Hp. destruct (Hreads p st Hp) as [H|H]; [now left | right].
    rewrite yields_walk_listing in H.
    cbn [flat_map item_paths] in H. apply in_app_or in H as [H|H].
    + apply in_map_iff in H as (file & <- & Hfile).
      apply nondirs_of_inv in Hfile.
      destruct (Hall _ Hfile) as [Hname _]. cbn [fst] in Hname.
      rewrite (join_name _ _ Hname).
      destruct (pre_extends top) as [x ->]. exists (x ++ file)%list.
      now rewrite <- app_assoc.
    + rewrite flat_map_flat_map in H. apply in_flat_map in H as (e & He & H).
      apply (through_extends top p (fst e)). now apply (proj2 (Hthrough e He)).
Qed.

Lemma walk_stays_under_root_witness :
  (forall r, In r (map root_of (yields (os_walk fs_tree (text components)))) ->
             exists rest, r = (text components ++ rest)%list)
  /\ (forall p st,
        In p (opened (snd (list_files_recursive fs_tree (text components) st))) ->
        In p (opened st) \/ exists rest, p = (text components ++ rest)%list).
Proof.
  apply (walk_stays_under_root fs_tree (text components) tree_sample).
  - reflexivity.
  - reflexivity.
Defined.

(** X9: a walker that returns normally has left nothing out: when neither
    the path of the root nor a name of the tree holds a line break, every
    directory the walk can enter has its [Directory:] line, and every
    non-directory entry of the listing of such a directory has its
    [--- FILE: <path> ---] line, among the lines written. *)
Theorem report_is_complete
        (fs : filesystem) (top : pystr) (n : node) (st : state) :
  lookup fs top = Some n ->
  no_breaks n = true ->
  has_char LF (fsencode top) = false ->
  fst (list_files_recursive fs top st) = Return tt ->
  (forall p, entered top n p ->
     In ("Directory: " ++ fsencode p)
        (lines (written (list_files_recursive fs top))))
  /\ (forall p, listed top n p ->
        In ("--- FILE: " ++ fsencode p ++ " ---")
           (lines (written (list_files_recursive fs top)))).
Proof.
  intros Hlook Hbreaks Htop Hnormal.
  destruct (walker_normal _ _ _ Hnormal) as (_ & Ht & _).
  assert (Hwalk : os_walk fs top = walk_node top n) by (unfold os_walk; now rewrite Hlook).
  assert (Hlines : lines (written (list_files_recursive fs top)) =
                   flat_map (item_lines fs) (yields (walk_node top n))).
  { rewrite (written_runs _ _ (runs_walker fs top)), Ht. unfold walk_text.
    rewrite Hwalk. apply lines_walk. intros item Hitem.
    now apply (walk_no_break n top). }
  rewrite Hlines. split.
  - intros p Hp. apply entered_visited in Hp.
    apply in_map_iff in Hp as (item & <- & Hitem).
    apply in_flat_map. exists item. split; [exact Hitem | now left].
  - intros p Hp. apply listed_read in Hp.
    apply in_flat_map in Hp as (item & Hitem & Hp).
    apply in_flat_map. exists item. split; [exact Hitem|].
    right. apply in_flat_map. exists p. split; [exact Hp|].
    unfold file_lines. right. now left.
Qed.

Lemma report_is_complete_witness :
  (forall p, entered (text components) tree_sample p ->
     In ("Directory: " ++ fsencode p)
        (lines (written (list_files_recursive fs_tree (text components)))))
  /\ (forall p, listed (text components) tree_sample p ->
        In ("--- FILE: " ++ fsencode p ++ " ---")
           (lines (written (list_files_recursive fs_tree (text components))))).
Proof.
  apply (report_is_complete fs_tree (text components) tree_sample fresh).
  - reflexivity.
  - reflexivity.
  - reflexivity.
  - reflexivity.
Defined.

(** X10: a file name that cannot be encoded stops the walker.  When the
    files of the listing of a root are [before], then [bad], then others,
    the paths of [before] can be encoded and the path of [bad] cannot, the
    walker raises [UnicodeEncodeError] at the header of [bad]: the
    [Directory:] line of the root and the blocks of [before] are written
    and their files opened, and nothing of [bad] or of what comes after
    it is written or opened. *)
Theorem undecodable_name_aborts
        (fs : filesystem) (root : string) (link : bool)
        (es : list (pystr * node)) (before after : list pystr) (bad : pystr)
        (st : state) :
  lookup fs (text root) = Some (Dir link (Some es)) ->
  nondirs_of es = (before ++ bad :: after)%list ->
  (forall f, In f before -> has_surrogate (os_path_join (text root) f) = false) ->
  has_surrogate (os_path_join (text root) bad) = true ->
  list_files_recursive fs (text root) st =
  (Raise (unicode_encode_error
            (text (nl ++ "--- FILE: ") ++ os_path_join (text root) bad ++
             text (" ---" ++ nl))%list),
   mkState (out st ++
            ("Directory: " ++ root ++ nl) ++
            cat (map (fun f => file_block fs (os_path_join (text root) f)) before))
           (stdout st)
           (opened st ++ map (os_path_join (text root)) before)).
Proof.
  intros Hlook Hfiles Hbefore Hbad.
  set (head := (W (text "Directory: " ++ text root ++ text nl)%list ::
                flat_map (file_script fs (text root)) before)).
  assert (Hscript : exists rest,
            walker_script fs (text root) =
            (head ++ file_script fs (text root) bad ++ rest)%list).
  { unfold walker_script, os_walk. rewrite Hlook, walk_node_listing.
    cbn [flat_map yield_script item_script]. rewrite Hfiles, flat_map_app.
    cbn [flat_map]. eexists. unfold head. cbn [app].
    now rewrite <- !app_assoc. }
  destruct Hscript as [rest Hscript].
  assert (Hok : ok head = true).
  { unfold head. cbn [ok]. rewrite !has_surrogate_app, !has_surrogate_text.
    cbn [orb negb andb]. rewrite ok_flat_map. apply forallb_forall.
    intros f Hf. rewrite ok_file_script. now rewrite (Hbefore f Hf). }
  assert (Hstop : outcome_of (file_script fs (text root) bad ++ rest)%list =
                  Raise (unicode_encode_error
                           (text (nl ++ "--- FILE: ") ++ os_path_join (text root) bad ++
                            text (" ---" ++ nl))%list)
                  /\ text_of (file_script fs (text root) bad ++ rest)%list = ""
                  /\ reads_of (file_script fs (text root) bad ++ rest)%list = []).
  { unfold file_script. cbn [app outcome_of text_of reads_of].
    rewrite !has_surrogate_app, Hbad. cbn [orb]. rewrite orb_true_r. now repeat split. }
  destruct Hstop as (Ho & Htx & Hrd). destruct (ok_text _ Hok) as [Ht Hr].
  rewrite walker_run, Hscript, outcome_of_app, text_of_app, reads_of_app.
  rewrite Hok, Ho, Htx, Hrd, Ht, Hr, app_nil_r, append_nil_r.
  rewrite (proj2 (outcome_ok head) Hok).
  unfold head. cbn [full_text all_reads].
  rewrite full_text_flat_map, all_reads_flat_map, !fsencode_app, !fsencode_text.
  rewrite (map_ext _ _ (full_text_file_script fs (text root))).
  assert (Hreads : flat_map (fun a => all_reads (file_script fs (text root) a)) before =
                   map (os_path_join (text root)) before).
  { clear. induction before as [|f before IH]; [reflexivity|].
    cbn [flat_map map]. now rewrite IH. }
  rewrite Hreads. now rewrite !append_assoc.
Qed.

Lemma undecodable_name_aborts_witness :
  fst (list_files_recursive fs_odd_name (text components) fresh) =
    Raise (Exn "'utf-8' codec can't encode character '\udce9' in position 67: surrogates not allowed")
  /\ out (snd (list_files_recursive fs_odd_name (text components) fresh)) =
     ("Directory: " ++ components ++ nl) ++
     file_block fs_odd_name (text (components ++ "/a.txt")).
Proof.
  split; [reflexivity|].
  rewrite (undecodable_name_aborts fs_odd_name components false
             [ (text "a.txt", File); (odd_name, File);
               (text "b.txt", File); (text "ui", Dir false (Some [])) ]
             [text "a.txt"] [text "b.txt"] odd_name fresh).
  - reflexivity.
  - reflexivity.
  - reflexivity.
  - intros f [<-|[]]. reflexivity.
  - reflexivity.
Defined.

(** X11: an exception that [os.walk] lets through stops the walker where it
    is raised: when the walk yields some triples, all with paths that can
    be encoded, and then raises, the walker raises that exception, having
    written the whole parts of those triples and opened their files, and
    nothing more. *)
Theorem walk_raise_aborts
        (fs : filesystem) (top : pystr) (items : list walk_item) (e : exn)
        (rest : list (walk_item + exn)) (st : state) :
  os_walk fs top = (map inl items ++ inr e :: rest)%list ->
  forallb item_sound items = true ->
  list_files_recursive fs top st =
  (Raise e,
   mkState (out st ++ cat (map (dir_block fs) items)) (stdout st)
           (opened st ++ flat_map item_paths items)).
Proof.
  intros Hwalk Hsound.
  set (head := flat_map (item_script fs) items).
  assert (Hscript : walker_script fs top =
                    (head ++ X e :: flat_map (yield_script fs) rest)%list).
  { unfold walker_script. rewrite Hwalk, flat_map_app. cbn [flat_map yield_script app].
    f_equal. unfold head. clear. induction items as [|i items IH]; [reflexivity|].
    cbn [map flat_map yield_script]. now rewrite IH. }
  assert (Hok : ok head = true).
  { unfold head. rewrite ok_flat_map. rewrite forallb_forall in *.
    intros item Hitem. rewrite ok_item_script. now apply Hsound. }
  destruct (ok_text _ Hok) as [Ht Hr].
  rewrite walker_run, Hscript, outcome_of_app, text_of_app, reads_of_app.
  rewrite Hok, (proj2 (outcome_ok head) Hok), Ht, Hr.
  cbn [outcome_of text_of reads_of]. rewrite app_nil_r, append_nil_r.
  unfold head. rewrite full_text_flat_map, all_reads_flat_map.
  rewrite (map_ext _ _ (full_text_item_script fs)).
  now rewrite (flat_map_ext _ _ (all_reads_item_script fs)).
Qed.

Lemma walk_raise_aborts_witness :
  list_files_recursive fs_too_deep (text components) fresh =
  (Raise (Exn "maximum recursion depth exceeded"),
   mkState (cat (map (dir_block fs_too_deep)
                     [(text components,
                       [text "down"; text "ui"],
                       [text "a.txt"])]))
           ""
           (flat_map item_paths
                     [(text components,
                       [text "down"; text "ui"],
                       [text "a.txt"])])).
Proof.
  apply (walk_raise_aborts fs_too_deep (text components)
           [(text components, [text "down"; text "ui"], [text "a.txt"])]
           (Exn "maximum recursion depth exceeded")
           [inl (text (components ++ "/ui"), [], [])] fresh).
  - reflexivity.
  - reflexivity.
Defined.
